(** * retryyy: retry policies, their composition and the execution engine

    A shallow embedding of [src/core.ts] and of the policy units under
    [src/policies/], followed by the properties of the specification
    that were checked against them.

    Conventions of the embedding.
    - A JavaScript [number] that holds a duration or a ratio is an exact
      rational ([Q]); the counters [attempt], [elapsed] and [start] are
      integers ([Z]).  Rounding, [NaN] and the infinities are outside
      the model.
    - A policy either returns a delay or throws: its result is a
      [Completion].  The effects a policy can have ([Math.random], the
      [WeakMap] of [PollyJitter]) are threaded through a small state
      monad [M] over a [PolicyWorld].
    - [Math.random] and [Date.now] are oracles of the host, gathered in
      a [Runtime]; the transcendental functions of [Math], which only
      [PollyJitter] uses, are a parameter of that unit ([MathLib]). *)

From Stdlib Require Import ZArith QArith Qminmax List String Bool Lia.
From Stdlib Require Import Lqa DecimalString Qpower.
Import ListNotations.

Set Implicit Arguments.

(** ** Values that can be thrown *)

#[warnings="-register-all"] Inductive JsValue : Type :=
| JsUndefined
| JsNull
| JsError (message : string)
| JsTypeError (message : string)
| JsRetryyyError (errors : list JsValue) (cause : JsValue).

(** [class RetryyyError extends AggregateError]: the constructor keeps
    the list it is given and sets [cause] to [options?.cause]. *)
Definition RetryyyError (errors : list JsValue) (options : option JsValue)
  : JsValue :=
  JsRetryyyError errors
    (match options with Some cause => cause | None => JsUndefined end).

(** [xs.concat(v)] for a [v] that is not an array. *)
Definition concat1 (xs : list JsValue) (v : JsValue) : list JsValue :=
  xs ++ [v].

Inductive Completion (A : Type) : Type :=
| Normal (a : A)
| Thrown (e : JsValue).

Arguments Normal {A} a.
Arguments Thrown {A} e.

(** [a ?? d] *)
Definition nullish {A : Type} (a : option A) (d : A) : A :=
  match a with Some x => x | None => d end.

(** [options?.field] *)
Definition opt_field {O A : Type} (options : option O) (field : O -> option A)
  : option A :=
  match options with Some o => field o | None => None end.

Infix "??" := nullish (at level 45, left associativity).

(** Comparisons of numbers. *)
Definition Qleb (x y : Q) : bool := Qle_bool x y.
Definition Qltb (x y : Q) : bool := negb (Qle_bool y x).

(** ** The host and the world seen by policies *)

Record Runtime : Type := {
  Math_random : nat -> Q;        (* the n-th draw of Math.random() *)
  Date_now    : nat -> Z         (* the n-th reading of Date.now() *)
}.

Record MathLib : Type := {
  Math_pow  : Q -> Q -> Q;
  Math_tanh : Q -> Q;
  Math_sqrt : Q -> Q
}.

(** [factors] lists the entries of the [WeakMap]s owned by [PollyJitter]
    closures: the key is the map, then the state object. *)
Record PolicyWorld : Type := {
  draws   : nat;
  factors : list (nat * nat * Q)
}.

Definition M (A : Type) : Type :=
  Runtime -> PolicyWorld -> Completion A * PolicyWorld.

Definition ret {A} (a : A) : M A := fun _ w => (Normal a, w).

Definition throw {A} (e : JsValue) : M A := fun _ w => (Thrown e, w).

Definition bind {A B} (m : M A) (k : A -> M B) : M B :=
  fun rt w =>
    match m rt w with
    | (Normal a, w') => k a rt w'
    | (Thrown e, w') => (Thrown e, w')
    end.

(** [try { m } catch (err) { h err }] *)
Definition try_catch {A} (m : M A) (h : JsValue -> M A) : M A :=
  fun rt w =>
    match m rt w with
    | (Normal a, w') => (Normal a, w')
    | (Thrown e, w') => h e rt w'
    end.

Notation "x <- m ;; k" := (bind m (fun x => k))
  (at level 61, m at next level, right associativity).
Notation "m ;;; k" := (bind m (fun _ => k))
  (at level 61, right associativity).

Definition random : M Q :=
  fun rt w =>
    (Normal (Math_random rt (draws w)),
     {| draws := S (draws w); factors := factors w |}).

Fixpoint assoc_get (k : nat * nat) (l : list (nat * nat * Q)) : option Q :=
  match l with
  | [] => None
  | (k', v) :: l' =>
      if (fst k =? fst k')%nat && (snd k =? snd k')%nat
      then Some v else assoc_get k l'
  end.

Definition factors_get (map key : nat) : M (option Q) :=
  fun _ w => (Normal (assoc_get (map, key) (factors w)), w).

Definition factors_set (map key : nat) (v : Q) : M unit :=
  fun _ w =>
    (Normal tt,
     {| draws := draws w; factors := (map, key, v) :: factors w |}).

(** ** [RetryState] and [RetryPolicy] (core.ts) *)

Record RetryState : Type := {
  ref     : nat;            (* identity of the state object *)
  attempt : Z;
  delay   : Q;
  elapsed : Z;
  error   : JsValue;
  errors  : list JsValue;
  start   : Z
}.

(** What a policy can do with the [next] it receives: every unit calls
    it as [next(state)]. *)
Definition Next : Type := RetryState -> M Q.

Definition RetryPolicy : Type := RetryState -> option Next -> M Q.

(** A policy used as the [next] of another one: it is called with the
    state alone, so its own [next] is [undefined]. *)
Definition as_next (p : RetryPolicy) : Next := fun state => p state None.

(** [next(state)]: calling [undefined] is a [TypeError]. *)
Definition call (next : option Next) (state : RetryState) : M Q :=
  match next with
  | Some n => n state
  | None => throw (JsTypeError "next is not a function")
  end.

Definition absent {A} (next : option A) : bool :=
  match next with Some _ => false | None => true end.

(** [next?.(state)] evaluated for its effects (the [void] operator). *)
Definition void_call (next : option Next) (state : RetryState) : M unit :=
  match next with
  | Some n => n state ;;; ret tt
  | None => ret tt
  end.

(** *** [join] *)

Inductive PolicyArg : Type :=
| One (p : RetryPolicy)
| Many (ps : list RetryPolicy).

(** [Array.prototype.flat()], one level deep. *)
Definition flat (policies : list PolicyArg) : list RetryPolicy :=
  flat_map (fun a => match a with One p => [p] | Many ps => ps end) policies.

(** [Array.prototype.reduceRight(callback)] without an initial value:
    the last element starts as the accumulator, the callback is not
    called for it, and an empty array is a [TypeError]. *)
Definition reduceRight {A} (callback : A -> A -> A) (l : list A)
  : Completion A :=
  match rev l with
  | [] => Thrown (JsTypeError "Reduce of empty array with no initial value")
  | last :: before => Normal (fold_left callback before last)
  end.

Definition join_callback (next policy : RetryPolicy) : RetryPolicy :=
  fun state _ => policy state (Some (as_next next)).

Definition join (policies : list PolicyArg) : Completion RetryPolicy :=
  reduceRight join_callback (flat policies).

(** ** Policy units *)

(** *** Breaker.ts *)

Record BreakerOptions : Type := { breaker_max : option Q }.

Definition Breaker (options : option BreakerOptions) : RetryPolicy :=
  let max := opt_field options breaker_max ?? 10 in
  fun state next =>
    if Qleb max (inject_Z (attempt state)) then throw (error state)
    else if absent next then throw (error state)
    else call next state.

(** *** Timeout.ts *)

Record TimeoutOptions : Type := { timeout_after : option Q }.

Definition Timeout (options : option TimeoutOptions) : RetryPolicy :=
  let after := opt_field options timeout_after ?? 30000 in
  fun state next =>
    if Qltb (after - delay state) (inject_Z (elapsed state)) || absent next
    then throw (error state)
    else call next state.

(** *** Backoff.ts *)

Record BackoffOptions : Type := {
  backoff_delay : option Q;
  backoff_exp   : option Q;
  backoff_max   : option Q
}.

Definition Backoff (options : option BackoffOptions) : Completion RetryPolicy :=
  let delay := opt_field options backoff_delay ?? 150 in
  let exp := opt_field options backoff_exp ?? 2 in
  let max := opt_field options backoff_max ?? 30000 in
  if Qleb delay 0 then Thrown (JsTypeError "delay must be a positive number")
  else if Qleb exp 0 then Thrown (JsTypeError "exp must be a positive number")
  else Normal (fun state next =>
    void_call next state ;;;
    ret (Qmin max (delay * Qpower exp (attempt state - 1)))).

(** *** FastTrack.ts *)

Definition FastTrack : RetryPolicy :=
  fun state next =>
    delay <- match next with
             | Some n => n state
             | None => ret 0
             end ;;
    ret (if (attempt state =? 1)%Z then 0 else delay).

(** *** BrandError.ts *)

Definition BrandError : RetryPolicy :=
  fun state next =>
    try_catch
      (if absent next then throw (error state) else call next state)
      (fun err => throw (RetryyyError (concat1 (errors state) err) (Some err))).

(** *** Jitter.ts *)

Record JitterOptions : Type := {
  jitter_offset : option Q;
  jitter_range  : option Q
}.

Definition Jitter (options : JitterOptions) : RetryPolicy :=
  let range := jitter_range options ?? (-(1#2)) in
  let offset := jitter_offset options ?? (1#4) in
  fun state next =>
    if absent next then throw (error state)
    else
      delay <- call next state ;;
      r <- random ;;
      let jitter := delay * range * r in
      let shift := delay * offset in
      ret (delay + jitter + shift).

Definition FullJitter : RetryPolicy :=
  Jitter {| jitter_offset := Some (-(1)); jitter_range := Some 1 |}.

Definition EqualJitter : RetryPolicy :=
  Jitter {| jitter_offset := Some (-(1#2)); jitter_range := Some (1#2) |}.

Record DecorrelatedJitterOptions : Type := {
  decorrelated_initial : option Q;
  decorrelated_max     : option Q
}.

Definition DecorrelatedJitter (options : option DecorrelatedJitterOptions)
  : RetryPolicy :=
  let initial := opt_field options decorrelated_initial ?? 150 in
  let max := opt_field options decorrelated_max ?? 30000 in
  fun state next =>
    void_call next state ;;;
    let past := if (attempt state =? 1)%Z then initial else delay state in
    let top := Qmin max (past * 3) in
    r <- random ;;
    ret (r * (top - initial) + initial).

Record PollyJitterOptions : Type := {
  polly_initial : option Q;
  polly_max     : option Q
}.

Definition POLLY_P_FACTOR : Q := 4.
Definition POLLY_RP_SCALING_FACTOR : Q := 1 / (14#10).

(** [PollyJitter(options)] allocates a [WeakMap]; [factors] names it. *)
Definition PollyJitter (Math : MathLib) (factors : nat)
    (options : option PollyJitterOptions) : RetryPolicy :=
  let initial := opt_field options polly_initial ?? 150 in
  let max := opt_field options polly_max ?? 30000 in
  fun state middleware =>
    void_call middleware state ;;;
    r <- random ;;
    let t := inject_Z (attempt state - 1) + r in
    stored <- factors_get factors (ref state) ;;
    let prev := stored ?? 0 in
    let next :=
      Math_pow Math 2 t
      * Math_tanh Math (Math_sqrt Math (POLLY_P_FACTOR * t)) in
    let shift := next - prev in
    factors_set factors (ref state) next ;;;
    ret (Qmin max (shift * POLLY_RP_SCALING_FACTOR * initial)).

(** *** Logger.ts *)

(** A logging function such as [console.warn]: it receives the message
    and one value; like any function it may have effects or throw. *)
Definition Sink : Type := string -> JsValue -> M unit.

(** The [console] of the host. *)
Record Console : Type := {
  console_warn  : Sink;
  console_error : Sink
}.

(** [String(n)] for an integer. *)
Definition String_of (n : Z) : string := NilZero.string_of_int (Z.to_int n).

Record LoggerOptions : Type := {
  logger_warn  : option Sink;
  logger_error : option Sink
}.

Definition Logger (console : Console) (options : option LoggerOptions)
  : RetryPolicy :=
  let warn := opt_field options logger_warn ?? console_warn console in
  let error_ := opt_field options logger_error ?? console_error console in
  fun state next =>
    warn ("[retryyy] Attempt " ++ String_of (attempt state)
          ++ " failed after " ++ String_of (elapsed state) ++ "ms")%string
         (error state) ;;;
    try_catch
      (if absent next then throw (error state) else call next state)
      (fun err =>
         error_ ("[retryyy] Giving up after " ++ String_of (attempt state)
                 ++ " attempts and " ++ String_of (elapsed state)
                 ++ "ms")%string err ;;;
         throw err).

(** *** Default.ts *)

(** [logError] and [logWarn]: a function or a boolean. *)
Inductive LogSetting : Type :=
| LogFunction (f : Sink)
| LogBoolean (b : bool).

Record DefaultOptions : Type := {
  default_fastTrack    : option bool;
  default_initialDelay : option Q;
  default_logError     : option LogSetting;
  default_logWarn      : option LogSetting;
  default_maxAttempts  : option Q;
  default_maxDelay     : option Q;
  default_timeout      : option Q;
  default_next         : option RetryPolicy
}.

Definition noop : Sink := fun _ _ => ret tt.

Definition loggerOrNoop (logger : option LogSetting) : option Sink :=
  match logger with
  | Some (LogFunction f) => Some f
  | Some (LogBoolean true) | None => None
  | Some (LogBoolean false) => Some noop
  end.

(** [array.filter(Boolean)] on an array of policies and [undefined]s. *)
Definition filter_Boolean (l : list (option RetryPolicy)) : list RetryPolicy :=
  flat_map (fun x => match x with Some p => [p] | None => [] end) l.

(** [Default(options)]; [factors] names the [WeakMap] that its
    [PollyJitter] allocates. *)
Definition Default (console : Console) (Math : MathLib) (factors : nat)
    (options : option DefaultOptions) : Completion RetryPolicy :=
  join
    [Many
       (filter_Boolean
          [Some (Logger console
                   (Some {| logger_warn :=
                              loggerOrNoop (opt_field options default_logWarn);
                            logger_error :=
                              loggerOrNoop
                                (opt_field options default_logError) |}));
           Some (Timeout
                   (Some {| timeout_after :=
                              opt_field options default_timeout |}));
           Some (Breaker
                   (Some {| breaker_max :=
                              opt_field options default_maxAttempts |}));
           (if opt_field options default_fastTrack ?? false
            then Some FastTrack else None);
           Some (PollyJitter Math factors
                   (Some {| polly_initial :=
                              opt_field options default_initialDelay;
                            polly_max :=
                              opt_field options default_maxDelay |}));
           opt_field options default_next])].

(** ** The execution engine (core.ts) *)

(** [aborted k]: the value of [signal.aborted] when the [k]-th wait
    starts; [fires k]: an [abort] event is dispatched while the [k]-th
    wait is pending, before its timer. *)
Record AbortSignal : Type := {
  reason  : JsValue;
  aborted : nat -> bool;
  fires   : nat -> bool
}.

(** [wait(ms, signal)], for the [k]-th wait of the host. *)
Definition wait (ms : Q) (signal : option AbortSignal) (k : nat)
  : Completion unit :=
  match signal with
  | Some sg =>
      if aborted sg k then Thrown (reason sg)
      else if fires sg k then Thrown (reason sg)
      else Normal tt
  | None => Normal tt
  end.

(** The part of the host the engine itself advances: how often the
    operation has been invoked, how often the clock has been read, how
    many waits have been started and how many state objects exist. *)
Record World : Type := {
  calls  : nat;
  ticks  : nat;
  waits  : nat;
  allocs : nat;
  pworld : PolicyWorld
}.

Record Machine : Type := {
  state : RetryState;
  world : World
}.

Section Engine.

Context {Output : Type}.

Variable rt : Runtime.
(** [fn k]: how the [k]-th invocation of [fn(...input)] settles. *)
Variable fn : nat -> Completion Output.
Variable policy : RetryPolicy.
Variable signal : option AbortSignal.

Inductive Progress : Type :=
| Settled (r : Completion Output) (m : Machine)
| Again (m : Machine).

(** The updates of the [catch] block before the policy is called:
    [attempt += 1], [elapsed = Date.now() - start], [error = e],
    [errors.push(e)]. *)
Definition failed (m : Machine) (e : JsValue) : RetryState :=
  {| ref := ref (state m);
     attempt := attempt (state m) + 1;
     delay := delay (state m);
     elapsed := Date_now rt (ticks (world m)) - start (state m);
     error := e;
     errors := errors (state m) ++ [e];
     start := start (state m) |}.

(** [state.delay = d] *)
Definition set_delay (s : RetryState) (d : Q) : RetryState :=
  {| ref := ref s; attempt := attempt s; delay := d; elapsed := elapsed s;
     error := error s; errors := errors s; start := start s |}.

(** One turn of the [for (;;)] loop of [exec]: the operation is invoked;
    a failure updates the state, asks the policy and waits. *)
Definition turn (m : Machine) : Progress :=
  let w := world m in
  match fn (calls w) with
  | Normal v =>
      Settled (Normal v)
        {| state := state m;
           world := {| calls := S (calls w); ticks := ticks w;
                       waits := waits w; allocs := allocs w;
                       pworld := pworld w |} |}
  | Thrown e =>
      let s1 := failed m e in
      match policy s1 None rt (pworld w) with
      | (Thrown e', pw) =>
          Settled (Thrown e')
            {| state := s1;
               world := {| calls := S (calls w); ticks := S (ticks w);
                           waits := waits w; allocs := allocs w;
                           pworld := pw |} |}
      | (Normal d, pw) =>
          let m' :=
            {| state := set_delay s1 d;
               world := {| calls := S (calls w); ticks := S (ticks w);
                           waits := S (waits w); allocs := allocs w;
                           pworld := pw |} |} in
          match wait d signal (waits w) with
          | Thrown reason => Settled (Thrown reason) m'
          | Normal _ => Again m'
          end
      end
  end.

Fixpoint loop (fuel : nat) (m : Machine)
  : option (Completion Output * Machine) :=
  match fuel with
  | O => None
  | S fuel' =>
      match turn m with
      | Settled r m' => Some (r, m')
      | Again m' => loop fuel' m'
      end
  end.

(** The fresh state of [exec], with [start: Date.now()]. *)
Definition boot (w : World) : Machine :=
  {| state := {| ref := allocs w; attempt := 0; delay := 0; elapsed := 0;
                 error := JsNull; errors := [];
                 start := Date_now rt (ticks w) |};
     world := {| calls := calls w; ticks := S (ticks w); waits := waits w;
                 allocs := S (allocs w); pworld := pworld w |} |}.

Definition exec (fuel : nat) (w : World)
  : option (Completion Output * Machine) :=
  loop fuel (boot w).

(** The machines an operation goes through: the fresh one, and the
    one left by every turn that asks for another attempt. *)
Inductive live (w0 : World) : Machine -> Prop :=
| live_boot : live w0 (boot w0)
| live_again (m m' : Machine) :
    live w0 m -> turn m = Again m' -> live w0 m'.

Definition settle (p : Progress) : Machine :=
  match p with Settled _ m => m | Again m => m end.

(** The machine left by a failure after which the engine waits. *)
Definition retried (m : Machine) (e : JsValue) (d : Q) (pw : PolicyWorld)
  : Machine :=
  {| state := set_delay (failed m e) d;
     world := {| calls := S (calls (world m)); ticks := S (ticks (world m));
                 waits := S (waits (world m)); allocs := allocs (world m);
                 pworld := pw |} |}.

Definition consistent (m : Machine) : Prop :=
  Z.of_nat (List.length (errors (state m))) = attempt (state m)
  /\ (0 < ticks (world m))%nat
  /\ (elapsed (state m)
      <= Date_now rt (pred (ticks (world m))) - start (state m))%Z.

Definition clock_monotone : Prop :=
  forall i j, (i <= j)%nat -> (Date_now rt i <= Date_now rt j)%Z.

End Engine.

(** An operation that rejects on every call, with [errs k] at call [k]. *)
Definition failing {Output : Type} (errs : nat -> JsValue)
  : nat -> Completion Output :=
  fun k => Thrown (errs k).

(** No cancellation ever interrupts a wait. *)
Definition quiet (signal : option AbortSignal) : Prop :=
  forall ms k, wait ms signal k = Normal tt.

(** The policy, called without a [next], returns a delay on every state. *)
Definition returns (rt : Runtime) (D : RetryPolicy) : Prop :=
  forall state w, exists d w', D state None rt w = (Normal d, w').

(** The policy, called without a [next], throws on every state that has
    reached [N] attempts. *)
Definition gives_up_at (rt : Runtime) (N : Z) (policy : RetryPolicy) : Prop :=
  forall state w,
    (N <= attempt state)%Z ->
    exists e w', policy state None rt w = (Thrown e, w').

(** The draws of [Math.random] lie in [[0, 1)]. *)
Definition unit_draws (rt : Runtime) : Prop :=
  forall n, 0 <= Math_random rt n /\ Math_random rt n < 1.

(** Called on [state], [next] throws from every world. *)
Definition fails_at (rt : Runtime) (next : Next) (state : RetryState) : Prop :=
  forall w, exists e w', next state rt w = (Thrown e, w').

(** A logging function that returns and leaves the world of the
    policies alone. *)
Definition silent (sink : Sink) : Prop :=
  forall msg v rt w, sink msg v rt w = (Normal tt, w).

(** ** Fixtures: a concrete host, used to run the model *)

Module Fixture.

(** Draws 1/2, 1/10, 9/10, then 0; the clock advances 10 ms a reading. *)
Definition rt : Runtime :=
  {| Math_random := fun n => nth n [1#2; 1#10; 9#10] 0;
     Date_now := fun n => (1000 + 10 * Z.of_nat n)%Z |}.

Definition pw : PolicyWorld := {| draws := 0; factors := [] |}.

Definition w : World :=
  {| calls := 0; ticks := 0; waits := 0; allocs := 0; pworld := pw |}.

(** The operation of the test suite: every call rejects. *)
Definition failure (k : nat) : JsValue :=
  nth k [JsError "failure 1"; JsError "failure 2"; JsError "failure 3"]
    (JsError "failure").

Definition fn : nat -> Completion unit := fun k => Thrown (failure k).

Definition st : RetryState :=
  {| ref := 0; attempt := 1; delay := 0; elapsed := 20;
     error := JsError "failure 1"; errors := [JsError "failure 1"];
     start := 1000 |}.

(** The linear policy of the documentation: [attempt * 1000]. *)
Definition linear : RetryPolicy :=
  fun state _ => ret (inject_Z (attempt state) * 1000).

(** A signal aborted before the call:
    [controller.abort(new Error('Aborted'))]. *)
Definition cancelled : AbortSignal :=
  {| reason := JsError "Aborted";
     aborted := fun _ => true;
     fires := fun _ => false |}.

(** A console that discards what it is given. *)
Definition console : Console :=
  {| console_warn := noop; console_error := noop |}.

(** Coarse rational stand-ins for [Math.pow], [Math.tanh] and
    [Math.sqrt]; they only serve to run [PollyJitter]. *)
Definition Math : MathLib :=
  {| Math_pow := fun _ e => 1 + e;
     Math_tanh := fun x => Qmin 1 x;
     Math_sqrt := fun x => x |}.

(** [{ maxAttempts: 2, fastTrack: true, logWarn: false, logError: false }] *)
Definition options : DefaultOptions :=
  {| default_fastTrack := Some true;
     default_initialDelay := None;
     default_logError := Some (LogBoolean false);
     default_logWarn := Some (LogBoolean false);
     default_maxAttempts := Some 2;
     default_maxDelay := None;
     default_timeout := None;
     default_next := None |}.

End Fixture.

(** ** Basic facts *)

Lemma Qleb_le (x y : Q) : Qleb x y = true <-> x <= y.
Proof. unfold Qleb. apply Qle_bool_iff. Qed.

Lemma Qltb_lt (x y : Q) : Qltb x y = true <-> x < y.
Proof.
  unfold Qltb. rewrite negb_true_iff. split; intro H.
  - apply Qnot_le_lt. intro Hle. apply Qle_bool_iff in Hle. congruence.
  - destruct (Qle_bool y x) eqn:E; [|reflexivity].
    apply Qle_bool_iff in E. exfalso. exact (Qlt_not_le _ _ H E).
Qed.

Lemma Qltb_nlt (x y : Q) : Qltb x y = false <-> ~ x < y.
Proof.
  rewrite <- Qltb_lt. destruct (Qltb x y); split; congruence.
Qed.

Lemma Qleb_inject_Z (a b : Z) : Qleb (inject_Z a) (inject_Z b) = (a <=? b)%Z.
Proof.
  unfold Qleb, Qle_bool, inject_Z. simpl. now rewrite !Z.mul_1_r.
Qed.

(** [reduceRight] peels the array from its head: the callback receives
    the reduction of the tail and then the head. *)
Lemma reduceRight_cons {A} (callback : A -> A -> A) (a : A) (l : list A) :
  l <> [] ->
  exists j, reduceRight callback l = Normal j
            /\ reduceRight callback (a :: l) = Normal (callback j a).
Proof.
  intro Hne. unfold reduceRight. simpl rev.
  destruct (rev l) as [|last before] eqn:E.
  - apply (f_equal (@rev A)) in E. rewrite rev_involutive in E. contradiction.
  - exists (fold_left callback before last). split; [reflexivity|].
    simpl. now rewrite fold_left_app.
Qed.

Lemma flat_map_One (l : list RetryPolicy) : flat (map One l) = l.
Proof.
  unfold flat. induction l as [|p l IH]; simpl; [reflexivity|].
  now f_equal.
Qed.

Lemma join_flat (policies : list PolicyArg) :
  join policies = join (map One (flat policies)).
Proof. unfold join. now rewrite flat_map_One. Qed.

Lemma join_chain (policies : list PolicyArg) (p : RetryPolicy)
      (rest : list RetryPolicy) :
  flat policies = p :: rest -> rest <> [] ->
  exists j, join (map One rest) = Normal j
            /\ join policies = Normal (join_callback j p).
Proof.
  intros Hflat Hne. unfold join. rewrite flat_map_One, Hflat.
  now apply reduceRight_cons.
Qed.

(** ** Composition: [join] *)

(** C4 (as amended).  [join(A, B)] called on a state is [A(state, B)];
    nested arrays are flattened before the units are chained, the first
    unit outermost; with no unit at all [join] throws a [TypeError], and
    with exactly one unit it returns that unit as it is, without an
    error (fewer than two units are excluded by the [PolicyList] type
    only). *)
Theorem join_composes :
  (forall (A B : RetryPolicy),
      exists j, join [One A; One B] = Normal j
                /\ forall state next rt w,
                     j state next rt w = A state (Some (as_next B)) rt w)
  /\ (forall policies, join policies = join (map One (flat policies)))
  /\ (forall policies p rest,
         flat policies = p :: rest -> rest <> [] ->
         exists j, join (map One rest) = Normal j
                   /\ join policies
                      = Normal (fun state _ => p state (Some (as_next j))))
  /\ (forall policies,
         flat policies = [] ->
         exists msg, join policies = Thrown (JsTypeError msg))
  /\ (forall policies p, flat policies = [p] -> join policies = Normal p).
Proof.
  split; [|split; [|split; [|split]]].
  - intros A B. exists (join_callback B A). split; reflexivity.
  - exact join_flat.
  - intros policies p rest Hflat Hne.
    destruct (join_chain policies Hflat Hne) as (j & Hj & Hjoin).
    exists j. split; [exact Hj | exact Hjoin].
  - intros policies Hflat. unfold join. rewrite Hflat.
    eexists. reflexivity.
  - intros policies p Hflat. unfold join. now rewrite Hflat.
Qed.

Lemma join_composes_witness :
  flat [Many [FastTrack; Breaker None]; One FullJitter]
  = FastTrack :: [Breaker None; FullJitter]
  /\ (exists j, join (map One [Breaker None; FullJitter]) = Normal j
                /\ join [Many [FastTrack; Breaker None]; One FullJitter]
                   = Normal (fun state _ => FastTrack state (Some (as_next j))))
  /\ flat [Many []] = []
  /\ (exists msg, join [Many []] = Thrown (JsTypeError msg))
  /\ flat [Many [FastTrack]] = [FastTrack]
  /\ join [Many [FastTrack]] = Normal FastTrack.
Proof.
  destruct join_composes as (_ & _ & Hchain & Hnone & Hone).
  split; [reflexivity|]. split.
  - apply Hchain; [reflexivity | discriminate].
  - split; [reflexivity|]. split; [apply Hnone; reflexivity|].
    split; [reflexivity|]. apply Hone. reflexivity.
Defined.

(** C4, as stated, fails: [join(FastTrack())], one effective unit, is
    not an error; it evaluates to the unit itself. *)
Lemma join_single_unit_is_no_error :
  join [One FastTrack] = Normal FastTrack
  /\ ~ (exists e, join [One FastTrack] = Thrown e).
Proof.
  split; [reflexivity|]. intros [e He]. discriminate He.
Qed.

(** C10.  The policy built by [join] from two or more units ignores the
    [next] it is called with: whatever [C] is, [join(P)(s, C)] is
    [join(P)(s)], so [C] is never run. *)
Theorem join_ignores_next (policies : list PolicyArg) :
  (2 <= List.length (flat policies))%nat ->
  exists j, join policies = Normal j
            /\ forall state (C : Next) rt w,
                 j state (Some C) rt w = j state None rt w.
Proof.
  intro Hlen.
  destruct (flat policies) as [|p [|q rest]] eqn:Hflat; simpl in Hlen; try lia.
  destruct (@join_chain policies p (q :: rest) Hflat) as (j & _ & Hjoin);
    [discriminate|].
  exists (join_callback j p). split; [exact Hjoin | reflexivity].
Qed.

Lemma join_ignores_next_witness :
  (2 <= List.length (flat [One FastTrack; Many [Breaker None; FullJitter]]))%nat
  /\ exists j, join [One FastTrack; Many [Breaker None; FullJitter]] = Normal j
               /\ forall state (C : Next) rt w,
                    j state (Some C) rt w = j state None rt w.
Proof.
  split; [simpl; lia|].
  apply (@join_ignores_next [One FastTrack; Many [Breaker None; FullJitter]]).
  simpl; lia.
Defined.

(** ** Policy units *)

(** C5.  [Backoff] rejects a non-positive [delay] or [exp] when it is
    built; otherwise the policy returns
    [min(max, delay * exp^(attempt - 1))], whatever [next] returned:
    a [next] is run once, its value dropped.  With the defaults the
    delays of attempts 1, 2, 3 are 150, 300, 600. *)
Theorem Backoff_delays (options : option BackoffOptions) :
  let delay := opt_field options backoff_delay ?? 150 in
  let exp := opt_field options backoff_exp ?? 2 in
  let max := opt_field options backoff_max ?? 30000 in
  ((delay <= 0 \/ exp <= 0) ->
   exists msg, Backoff options = Thrown (JsTypeError msg))
  /\ (0 < delay -> 0 < exp ->
      exists policy,
        Backoff options = Normal policy
        /\ (forall state rt w,
               policy state None rt w
               = (Normal (Qmin max (delay * exp ^ (attempt state - 1))), w))
        /\ (forall state (next : Next) rt w,
               policy state (Some next) rt w
               = match next state rt w with
                 | (Normal _, w') =>
                     (Normal (Qmin max (delay * exp ^ (attempt state - 1))), w')
                 | (Thrown e, w') => (Thrown e, w')
                 end))
  /\ (exists policy,
        Backoff None = Normal policy
        /\ forall state rt w,
             (attempt state = 1%Z ->
              policy state None rt w = (Normal 150, w))
             /\ (attempt state = 2%Z ->
                 policy state None rt w = (Normal 300, w))
             /\ (attempt state = 3%Z ->
                 policy state None rt w = (Normal 600, w))).
Proof.
  intros delay exp max. split; [|split].
  - intros H. unfold Backoff. fold delay exp max.
    destruct (Qleb delay 0) eqn:Ed; [eexists; reflexivity|].
    destruct (Qleb exp 0) eqn:Ee; [eexists; reflexivity|].
    exfalso. destruct H as [H|H]; apply Qleb_le in H; congruence.
  - intros Hd He. unfold Backoff. fold delay exp max.
    destruct (Qleb delay 0) eqn:Ed.
    { apply Qleb_le in Ed. exfalso. exact (Qlt_not_le _ _ Hd Ed). }
    destruct (Qleb exp 0) eqn:Ee.
    { apply Qleb_le in Ee. exfalso. exact (Qlt_not_le _ _ He Ee). }
    eexists. split; [reflexivity|]. split.
    + reflexivity.
    + intros state next rt w. unfold void_call, bind, ret.
      destruct (next state rt w) as [[d|e] w']; reflexivity.
  - eexists. split; [reflexivity|].
    intros state rt w. unfold void_call, bind, ret. simpl.
    repeat split; intros ->; reflexivity.
Qed.

Lemma Backoff_delays_witness :
  (0 <= 0 \/ 2 <= 0)
  /\ (exists msg,
       Backoff (Some {| backoff_delay := Some 0; backoff_exp := None;
                        backoff_max := None |}) = Thrown (JsTypeError msg))
  /\ 0 < 100 /\ 0 < 3
  /\ exists policy,
       Backoff (Some {| backoff_delay := Some 100; backoff_exp := Some 3;
                        backoff_max := None |}) = Normal policy
       /\ forall state rt w,
            policy state None rt w
            = (Normal (Qmin 30000 (100 * 3 ^ (attempt state - 1))), w).
Proof.
  split; [left; apply Qle_refl|].
  split; [|split; [reflexivity|split; [reflexivity|]]].
  - apply (proj1 (Backoff_delays
             (Some {| backoff_delay := Some 0; backoff_exp := None;
                      backoff_max := None |}))).
    left; apply Qle_refl.
  - destruct (proj1 (proj2 (Backoff_delays
             (Some {| backoff_delay := Some 100; backoff_exp := Some 3;
                      backoff_max := None |}))))
      as (policy & Hp & Hnone & _); [reflexivity|reflexivity|].
    exists policy. split; [exact Hp | exact Hnone].
Defined.

(** C6.  [Timeout({after})] throws [state.error] when
    [state.elapsed > after - state.delay] or when there is no [next];
    in every other case it is [next(state)], value or failure alike.
    [after] defaults to 30000. *)
Theorem Timeout_gate (after : Q) (state : RetryState) (next : option Next)
        (rt : Runtime) (w : PolicyWorld) :
  let policy := Timeout (Some {| timeout_after := Some after |}) in
  ((after - delay state < inject_Z (elapsed state) \/ next = None) ->
   policy state next rt w = (Thrown (error state), w))
  /\ (forall n, next = Some n ->
                ~ after - delay state < inject_Z (elapsed state) ->
                policy state next rt w = n state rt w)
  /\ Timeout None = Timeout (Some {| timeout_after := Some 30000 |})
  /\ Timeout (Some {| timeout_after := None |})
     = Timeout (Some {| timeout_after := Some 30000 |}).
Proof.
  intro policy. unfold policy, Timeout. simpl.
  split; [|split; [|split; reflexivity]].
  - intros [Hlate | ->].
    + apply Qltb_lt in Hlate. now rewrite Hlate.
    + now rewrite orb_true_r.
  - intros n -> Hnot. apply Qltb_nlt in Hnot. now rewrite Hnot.
Qed.

Lemma Timeout_gate_witness :
  (500 - delay Fixture.st < inject_Z (elapsed Fixture.st) \/ @None Next = None)
  /\ Timeout (Some {| timeout_after := Some 500 |}) Fixture.st None
       Fixture.rt Fixture.pw
     = (Thrown (error Fixture.st), Fixture.pw)
  /\ ~ 500 - delay Fixture.st < inject_Z (elapsed Fixture.st)
  /\ Timeout (Some {| timeout_after := Some 500 |}) Fixture.st
       (Some (fun _ => ret 7)) Fixture.rt Fixture.pw
     = (Normal 7, Fixture.pw).
Proof.
  split; [right; reflexivity|]. split.
  - apply (proj1 (Timeout_gate 500 Fixture.st None Fixture.rt Fixture.pw)).
    right; reflexivity.
  - assert (H : ~ 500 - delay Fixture.st < inject_Z (elapsed Fixture.st))
      by (intro H; vm_compute in H; discriminate H).
    split; [exact H|].
    exact (proj1 (proj2 (Timeout_gate 500 Fixture.st (Some (fun _ => ret 7))
                           Fixture.rt Fixture.pw)) _ eq_refl H).
Defined.

(** C7 (as amended).  Without a [next], [Jitter], [FullJitter] and
    [EqualJitter] throw [state.error]; [DecorrelatedJitter] and
    [PollyJitter] do not need a [next]: without one they return a
    delay. *)
Theorem Jitter_family_without_next (state : RetryState) (rt : Runtime)
        (w : PolicyWorld) :
  (forall options, Jitter options state None rt w = (Thrown (error state), w))
  /\ FullJitter state None rt w = (Thrown (error state), w)
  /\ EqualJitter state None rt w = (Thrown (error state), w)
  /\ (forall options,
         exists d w',
           DecorrelatedJitter options state None rt w = (Normal d, w'))
  /\ (forall Math factors options,
         exists d w',
           PollyJitter Math factors options state None rt w = (Normal d, w')).
Proof.
  split; [|split; [|split; [|split]]]; try reflexivity.
  - intro options. do 2 eexists.
    cbv [DecorrelatedJitter void_call bind ret random]. reflexivity.
  - intros Math factors options. do 2 eexists.
    cbv [PollyJitter void_call bind ret random factors_get factors_set].
    reflexivity.
Qed.

(** C7, as stated, fails: [DecorrelatedJitter()] called without a [next]
    on the state of a first failure returns 300 (the draw is 1/2 of the
    window from 150 to 450) instead of throwing [state.error]. *)
Lemma DecorrelatedJitter_without_next_returns :
  DecorrelatedJitter None Fixture.st None Fixture.rt Fixture.pw
  = (Normal (600 # 2), {| draws := 1; factors := [] |})
  /\ fst (DecorrelatedJitter None Fixture.st None Fixture.rt Fixture.pw)
     <> Thrown (error Fixture.st).
Proof.
  split; [vm_compute; reflexivity|]. vm_compute. discriminate.
Qed.

(** C9 (as amended).  Without a [next], [FastTrack] does not fail: it
    returns 0.  With a [next] that returns a delay, the result is 0 when
    [attempt] is 1 and that delay when [attempt] is not 1 (so for every
    attempt from 2 on); a failure of [next] is passed on. *)
Theorem FastTrack_first_retry (state : RetryState) (rt : Runtime)
        (w : PolicyWorld) :
  FastTrack state None rt w = (Normal 0, w)
  /\ (forall (next : Next) d w',
         next state rt w = (Normal d, w') ->
         (attempt state = 1%Z ->
          FastTrack state (Some next) rt w = (Normal 0, w'))
         /\ (attempt state <> 1%Z ->
             FastTrack state (Some next) rt w = (Normal d, w'))
         /\ ((2 <= attempt state)%Z ->
             FastTrack state (Some next) rt w = (Normal d, w')))
  /\ (forall (next : Next) e w',
         next state rt w = (Thrown e, w') ->
         FastTrack state (Some next) rt w = (Thrown e, w')).
Proof.
  split; [|split].
  - unfold FastTrack, bind, ret. now destruct (attempt state =? 1)%Z.
  - intros next d w' Hnext. unfold FastTrack, bind, ret. rewrite Hnext.
    repeat split.
    + intros ->. reflexivity.
    + intro Hne. apply Z.eqb_neq in Hne. now rewrite Hne.
    + intro Hge. assert (Hne : (attempt state =? 1)%Z = false)
        by (apply Z.eqb_neq; lia). now rewrite Hne.
  - intros next e w' Hnext. unfold FastTrack, bind. now rewrite Hnext.
Qed.

Lemma FastTrack_first_retry_witness :
  (fun _ => ret 40) Fixture.st Fixture.rt Fixture.pw = (Normal 40, Fixture.pw)
  /\ attempt Fixture.st = 1%Z
  /\ FastTrack Fixture.st (Some (fun _ => ret 40)) Fixture.rt Fixture.pw
     = (Normal 0, Fixture.pw)
  /\ (fun _ => throw JsNull) Fixture.st Fixture.rt Fixture.pw
     = (@Thrown Q JsNull, Fixture.pw)
  /\ FastTrack Fixture.st (Some (fun _ => throw JsNull)) Fixture.rt Fixture.pw
     = (Thrown JsNull, Fixture.pw).
Proof.
  split; [reflexivity|]. split; [reflexivity|]. split.
  - apply (proj1 (proj1 (proj2 (FastTrack_first_retry Fixture.st Fixture.rt
                                  Fixture.pw))
                    (fun _ => ret 40) 40 Fixture.pw eq_refl)).
    reflexivity.
  - split; [reflexivity|].
    apply (proj2 (proj2 (FastTrack_first_retry Fixture.st Fixture.rt
                           Fixture.pw))
             (fun _ => throw JsNull) JsNull Fixture.pw).
    reflexivity.
Defined.

(** C9, as stated, fails: [FastTrack()] called without a [next] returns
    0; nothing is thrown. *)
Lemma FastTrack_without_next_returns :
  FastTrack Fixture.st None Fixture.rt Fixture.pw = (Normal 0, Fixture.pw)
  /\ ~ (exists e w', FastTrack Fixture.st None Fixture.rt Fixture.pw
                     = (Thrown e, w')).
Proof.
  split; [reflexivity|]. intros (e & w' & H). discriminate H.
Qed.

(** ** The engine *)

Section EngineFacts.

Context {Output : Type}.

Variable rt : Runtime.
Variable fn : nat -> Completion Output.
Variable policy : RetryPolicy.
Variable signal : option AbortSignal.

Lemma loop_settled (fuel : nat) (m m' : Machine) (r : Completion Output) :
  turn rt fn policy signal m = Settled r m' ->
  loop rt fn policy signal (S fuel) m = Some (r, m').
Proof. intro H. simpl. now rewrite H. Qed.

Lemma loop_again (fuel : nat) (m m' : Machine) :
  turn rt fn policy signal m = Again m' ->
  loop rt fn policy signal (S fuel) m = loop rt fn policy signal fuel m'.
Proof. intro H. simpl. now rewrite H. Qed.

Lemma consistent_boot (w0 : World) : consistent rt (boot rt w0).
Proof.
  unfold consistent, boot. simpl. repeat split; lia.
Qed.

Lemma turn_shape (m : Machine) :
  (exists v, fn (calls (world m)) = Normal v
             /\ state (settle (turn rt fn policy signal m)) = state m
             /\ ticks (world (settle (turn rt fn policy signal m)))
                = ticks (world m))
  \/ (exists e, fn (calls (world m)) = Thrown e
                /\ ticks (world (settle (turn rt fn policy signal m)))
                   = S (ticks (world m))
                /\ (state (settle (turn rt fn policy signal m)) = failed rt m e
                    \/ exists d,
                      fst (policy (failed rt m e) None rt (pworld (world m)))
                      = Normal d
                      /\ state (settle (turn rt fn policy signal m))
                         = set_delay (failed rt m e) d)).
Proof.
  unfold turn. destruct (fn (calls (world m))) as [v|e].
  - left. exists v. simpl. auto.
  - right. exists e. split; [reflexivity|]. fold (failed rt m e). simpl.
    destruct (policy (failed rt m e) None rt (pworld (world m)))
      as [[d|e'] pw]; simpl.
    + destruct (wait d signal (waits (world m))); simpl;
        (split; [reflexivity|]); right; exists d; auto.
    + split; [reflexivity|]. now left.
Qed.

Lemma consistent_turn (m : Machine) :
  consistent rt m -> consistent rt (settle (turn rt fn policy signal m)).
Proof.
  intros (Hlen & Hticks & Hel).
  destruct (turn_shape m) as [(v & _ & Hs & Ht) | (e & _ & Ht & Hs)].
  - unfold consistent. rewrite Hs, Ht. auto.
  - unfold consistent. rewrite Ht. simpl pred.
    assert (Hlen' : Z.of_nat (List.length (errors (state m) ++ [e]))
                    = (attempt (state m) + 1)%Z).
    { rewrite length_app. simpl. lia. }
    destruct Hs as [Hs | (d & _ & Hs)]; rewrite Hs; simpl;
      (split; [exact Hlen'|]); (split; [lia|]); lia.
Qed.

Lemma live_consistent (w0 : World) (m : Machine) :
  live rt fn policy signal w0 m -> consistent rt m.
Proof.
  intros Hlive. induction Hlive as [|m m' _ IH Hturn].
  - apply consistent_boot.
  - pose proof (consistent_turn IH) as H.
    now rewrite Hturn in H.
Qed.

Lemma turn_commits_delay (m : Machine) (e : JsValue) (d : Q)
      (pw : PolicyWorld) :
  fn (calls (world m)) = Thrown e ->
  policy (failed rt m e) None rt (pworld (world m)) = (Normal d, pw) ->
  delay (state (settle (turn rt fn policy signal m))) = d.
Proof.
  intros He Hp. unfold turn. rewrite He. fold (failed rt m e).
  simpl pworld. rewrite Hp.
  destruct (wait d signal _); reflexivity.
Qed.

(** C3 (as amended).  On every machine of an operation's lifetime
    [errors.length] equals [attempt], before and after each turn and
    on the state handed to the policy; [attempt] never decreases, and
    neither does [elapsed] as long as the clock does not run backwards.
    [delay] is whatever the policy returned last: nothing orders it. *)
Theorem state_invariants (w0 : World) (m : Machine) :
  live rt fn policy signal w0 m ->
  let m' := settle (turn rt fn policy signal m) in
  Z.of_nat (List.length (errors (state m))) = attempt (state m)
  /\ Z.of_nat (List.length (errors (state m'))) = attempt (state m')
  /\ (forall e, Z.of_nat (List.length (errors (failed rt m e)))
                = attempt (failed rt m e))
  /\ (attempt (state m) <= attempt (state m'))%Z
  /\ (clock_monotone rt -> (elapsed (state m) <= elapsed (state m'))%Z)
  /\ (forall e d pw,
         fn (calls (world m)) = Thrown e ->
         policy (failed rt m e) None rt (pworld (world m)) = (Normal d, pw) ->
         delay (state m') = d).
Proof.
  intros Hlive m'.
  pose proof (live_consistent Hlive) as Hm.
  pose proof (consistent_turn Hm) as Hm'. fold m' in Hm'.
  destruct Hm as (Hlen & Hticks & Hel).
  split; [exact Hlen|]. split; [exact (proj1 Hm')|].
  split; [|split; [|split]].
  - intro e. unfold failed. cbn [errors attempt].
    rewrite length_app. simpl. lia.
  - destruct (turn_shape m) as [(v & _ & Hs & _) | (e & _ & _ & Hs)];
      fold m' in Hs.
    + rewrite Hs. lia.
    + destruct Hs as [Hs | (d & _ & Hs)]; rewrite Hs; simpl; lia.
  - intro Hclock.
    pose proof (Hclock (pred (ticks (world m))) (ticks (world m))) as H.
    destruct (turn_shape m) as [(v & _ & Hs & _) | (e & _ & _ & Hs)];
      fold m' in Hs.
    + rewrite Hs. lia.
    + destruct Hs as [Hs | (d & _ & Hs)]; rewrite Hs; simpl; lia.
  - intros e d pw. apply turn_commits_delay.
Qed.

End EngineFacts.

Lemma Fixture_clock_monotone : clock_monotone Fixture.rt.
Proof. intros i j Hij. cbv [Fixture.rt Date_now]. lia. Qed.

Lemma state_invariants_witness :
  live Fixture.rt Fixture.fn Fixture.linear None Fixture.w
    (boot Fixture.rt Fixture.w)
  /\ clock_monotone Fixture.rt
  /\ Z.of_nat (List.length (errors (state (settle
        (turn Fixture.rt Fixture.fn Fixture.linear None
           (boot Fixture.rt Fixture.w))))))
     = attempt (state (settle
        (turn Fixture.rt Fixture.fn Fixture.linear None
           (boot Fixture.rt Fixture.w))))
  /\ (elapsed (state (boot Fixture.rt Fixture.w))
      <= elapsed (state (settle
           (turn Fixture.rt Fixture.fn Fixture.linear None
              (boot Fixture.rt Fixture.w)))))%Z
  /\ delay (state (settle
        (turn Fixture.rt Fixture.fn Fixture.linear None
           (boot Fixture.rt Fixture.w))))
     = 1 * 1000.
Proof.
  pose proof (live_boot Fixture.rt Fixture.fn Fixture.linear None Fixture.w)
    as Hlive.
  destruct (state_invariants Hlive) as (_ & Hlen & _ & _ & Hel & Hdelay).
  split; [exact Hlive|]. split; [exact Fixture_clock_monotone|].
  split; [exact Hlen|].
  split; [exact (Hel Fixture_clock_monotone)|].
  exact (Hdelay (JsError "failure 1") (1 * 1000) Fixture.pw eq_refl eq_refl).
Defined.

(** C3, as stated, fails for [delay]: under
    [join(FullJitter(), Backoff())] the first failure commits a delay
    of 75 (the draw 1/2 of 150) and the second one a delay of 30 (the
    draw 1/10 of 300). *)
Lemma delay_can_decrease :
  exists backoff j m1 m2,
    Backoff None = Normal backoff
    /\ join [One FullJitter; One backoff] = Normal j
    /\ turn Fixture.rt Fixture.fn j None (boot Fixture.rt Fixture.w) = Again m1
    /\ turn Fixture.rt Fixture.fn j None m1 = Again m2
    /\ live Fixture.rt Fixture.fn j None Fixture.w m1
    /\ delay (state m1) == 75
    /\ delay (state m2) == 30
    /\ delay (state m2) < delay (state m1).
Proof.
  do 4 eexists.
  split; [reflexivity|]. split; [reflexivity|].
  split; [vm_compute; reflexivity|]. split; [vm_compute; reflexivity|].
  split.
  - eapply live_again; [apply live_boot|]. vm_compute. reflexivity.
  - split; [reflexivity|]. split; reflexivity.
Qed.

(** ** Breaker and the number of attempts *)

Section BreakerRuns.

Context {Output : Type}.

Variable rt : Runtime.
Variable errs : nat -> JsValue.
Variable signal : option AbortSignal.
Variable N : Z.

Lemma Breaker_alone_throws (state : RetryState) (w : PolicyWorld) :
  Breaker (Some {| breaker_max := Some (inject_Z N) |}) state None rt w
  = (Thrown (error state), w).
Proof.
  unfold Breaker. simpl.
  now destruct (Qleb (inject_Z N) (inject_Z (attempt state))).
Qed.

Lemma turn_Breaker_alone (m : Machine) :
  exists m',
    turn rt (@failing Output errs)
      (Breaker (Some {| breaker_max := Some (inject_Z N) |})) signal m
    = Settled (Thrown (errs (calls (world m)))) m'
    /\ calls (world m') = S (calls (world m)).
Proof.
  unfold turn, failing. rewrite Breaker_alone_throws.
  eexists. split; reflexivity.
Qed.

Variable D : RetryPolicy.
Hypothesis D_returns : returns rt D.
Hypothesis signal_quiet : quiet signal.

Lemma turn_chain_again (m : Machine) :
  (attempt (state m) + 1 < N)%Z ->
  exists m',
    turn rt (@failing Output errs)
      (join_callback D
         (Breaker (Some {| breaker_max := Some (inject_Z N) |})))
      signal m
    = Again m'
    /\ attempt (state m') = (attempt (state m) + 1)%Z
    /\ calls (world m') = S (calls (world m)).
Proof.
  intro Hlt. unfold turn, failing, join_callback, Breaker.
  simpl. rewrite Qleb_inject_Z.
  assert (E : (N <=? attempt (state m) + 1)%Z = false)
    by (apply Z.leb_gt; lia).
  rewrite E. unfold as_next.
  match goal with |- context [D ?s None rt ?w] =>
    destruct (D_returns s w) as (d & w' & Hd); rewrite Hd end.
  rewrite signal_quiet. eexists. repeat split.
Qed.

Lemma turn_chain_stop (m : Machine) :
  (N <= attempt (state m) + 1)%Z ->
  exists m',
    turn rt (@failing Output errs)
      (join_callback D
         (Breaker (Some {| breaker_max := Some (inject_Z N) |})))
      signal m
    = Settled (Thrown (errs (calls (world m)))) m'
    /\ calls (world m') = S (calls (world m)).
Proof.
  intro Hge. unfold turn, failing, join_callback, Breaker.
  simpl. rewrite Qleb_inject_Z.
  assert (E : (N <=? attempt (state m) + 1)%Z = true)
    by (apply Z.leb_le; lia).
  rewrite E. eexists. split; reflexivity.
Qed.

Lemma loop_chain (k : nat) :
  forall (m : Machine) (fuel : nat),
    (attempt (state m) + 1 + Z.of_nat k = N)%Z ->
    (k < fuel)%nat ->
    exists m',
      loop rt (@failing Output errs)
        (join_callback D
           (Breaker (Some {| breaker_max := Some (inject_Z N) |})))
        signal fuel m
      = Some (Thrown (errs (calls (world m) + k)%nat), m')
      /\ calls (world m') = (calls (world m) + k + 1)%nat.
Proof.
  induction k as [|k IH]; intros m fuel Hatt Hfuel;
    (destruct fuel as [|fuel]; [lia|]).
  - destruct (turn_chain_stop m) as (m' & Hturn & Hcalls); [lia|].
    exists m'. rewrite (@loop_settled _ _ _ _ _ fuel _ _ _ Hturn).
    rewrite Nat.add_0_r. split; [reflexivity | lia].
  - destruct (turn_chain_again m) as (m1 & Hturn & Hatt1 & Hcalls1); [lia|].
    rewrite (@loop_again _ _ _ _ _ fuel _ _ Hturn).
    destruct (IH m1 fuel) as (m' & Hloop & Hcalls); [lia | lia |].
    exists m'. rewrite Hloop, Hcalls, Hcalls1.
    replace (calls (world m) + S k)%nat with (S (calls (world m)) + k)%nat
      by lia.
    split; [reflexivity | lia].
Qed.

End BreakerRuns.

(** C1 (as amended).  For [N >= 1] and an operation that always fails:
    driven by [Breaker({max: N})] alone, the engine invokes the
    operation exactly once and fails with that first error, since a
    [Breaker] without a [next] gives up; driven by
    [join(Breaker({max: N}), D)], where [D] returns a delay on every
    state and no cancellation occurs, it invokes the operation exactly
    [N] times and fails with the error of the [N]-th invocation. *)
Theorem Breaker_attempts {Output : Type} (rt : Runtime) (errs : nat -> JsValue)
        (signal : option AbortSignal) (N : Z) (D : RetryPolicy) (w : World)
        (fuel : nat) :
  (1 <= N)%Z -> returns rt D -> quiet signal -> (Z.to_nat N <= fuel)%nat ->
  (exists m,
      @exec Output rt (failing errs)
        (Breaker (Some {| breaker_max := Some (inject_Z N) |})) signal fuel w
      = Some (Thrown (errs (calls w)), m)
      /\ calls (world m) = S (calls w))
  /\ (exists j m,
         join [One (Breaker (Some {| breaker_max := Some (inject_Z N) |}));
               One D] = Normal j
         /\ @exec Output rt (failing errs) j signal fuel w
            = Some (Thrown (errs (calls w + Z.to_nat N - 1)%nat), m)
         /\ calls (world m) = (calls w + Z.to_nat N)%nat).
Proof.
  intros HN HD Hquiet Hfuel. split.
  - destruct fuel as [|fuel]; [lia|].
    destruct (@turn_Breaker_alone Output rt errs signal N (boot rt w))
      as (m & Hturn & Hcalls).
    exists m. unfold exec. rewrite (@loop_settled _ _ _ _ _ fuel _ _ _ Hturn).
    split; [reflexivity | exact Hcalls].
  - eexists. 
    destruct (@loop_chain Output rt errs signal N D HD Hquiet
                (Z.to_nat N - 1) (boot rt w) fuel) as (m & Hloop & Hcalls).
    + unfold boot. cbn [state attempt]. lia.
    + lia.
    + exists m. split; [reflexivity|]. unfold exec.
      unfold boot in Hloop at 2. unfold boot in Hcalls.
      cbn [world calls] in Hloop, Hcalls.
      replace (calls w + Z.to_nat N - 1)%nat
        with (calls w + (Z.to_nat N - 1))%nat by lia.
      split; [exact Hloop | lia].
Qed.

Lemma Fixture_linear_returns : returns Fixture.rt Fixture.linear.
Proof. intros state w. do 2 eexists. reflexivity. Qed.

Lemma quiet_without_signal : quiet None.
Proof. intros ms k. reflexivity. Qed.

Lemma Breaker_attempts_witness :
  (1 <= 3)%Z /\ returns Fixture.rt Fixture.linear /\ quiet None
  /\ (Z.to_nat 3 <= 5)%nat
  /\ exists j m,
       join [One (Breaker (Some {| breaker_max := Some (inject_Z 3) |}));
             One Fixture.linear] = Normal j
       /\ exec Fixture.rt Fixture.fn j None 5 Fixture.w
          = Some (Thrown (JsError "failure 3"), m)
       /\ calls (world m) = 3%nat.
Proof.
  split; [lia|]. split; [exact Fixture_linear_returns|].
  split; [exact quiet_without_signal|]. split; [simpl; lia|].
  assert (H1 : (1 <= 3)%Z) by lia.
  assert (H2 : (Z.to_nat 3 <= 5)%nat) by (simpl; lia).
  exact (proj2 (@Breaker_attempts unit Fixture.rt Fixture.failure None 3
                  Fixture.linear Fixture.w 5 H1 Fixture_linear_returns
                  quiet_without_signal H2)).
Defined.

(** C1, as stated, fails: driven by [Breaker({max: 2})] alone the engine
    invokes an always-failing operation once, not twice, and fails with
    the first error; no amount of fuel gives a run with two
    invocations. *)
Lemma Breaker_alone_stops_at_once :
  (exists m,
      exec Fixture.rt Fixture.fn (Breaker (Some {| breaker_max := Some 2 |}))
        None 2 Fixture.w
      = Some (Thrown (JsError "failure 1"), m)
      /\ calls (world m) = 1%nat)
  /\ ~ (exists fuel r m,
           exec Fixture.rt Fixture.fn
             (Breaker (Some {| breaker_max := Some 2 |})) None fuel Fixture.w
           = Some (r, m)
           /\ calls (world m) = 2%nat).
Proof.
  split.
  - eexists. split; vm_compute; reflexivity.
  - intros (fuel & r & m & Hexec & Hcalls).
    destruct fuel as [|fuel]; [discriminate Hexec|].
    unfold exec in Hexec. simpl in Hexec.
    injection Hexec as _ Hm. subst m. discriminate Hcalls.
Qed.

(** ** Cancellation before the first attempt *)

(** C2 (as amended).  With a signal that is already aborted when the
    call begins, the engine still invokes the operation, exactly once,
    and never retries: a first attempt that succeeds returns its result;
    one that fails is followed by the policy, and the engine fails with
    the cancellation reason if the policy returns a delay, with the
    failure of the policy if it gives up. *)
Theorem exec_with_aborted_signal {Output : Type} (rt : Runtime)
        (fn : nat -> Completion Output) (policy : RetryPolicy)
        (sg : AbortSignal) (w : World) (fuel : nat) :
  (forall k, aborted sg k = true) ->
  exists r m,
    exec rt fn policy (Some sg) (S fuel) w = Some (r, m)
    /\ calls (world m) = S (calls w)
    /\ match fn (calls w) with
       | Normal v => r = Normal v
       | Thrown e =>
           match policy (failed rt (boot rt w) e) None rt (pworld w) with
           | (Normal _, _) => r = Thrown (reason sg)
           | (Thrown e', _) => r = Thrown e'
           end
       end.
Proof.
  intro Haborted. unfold exec. cbn [loop]. unfold turn.
  cbn [boot world state calls pworld].
  destruct (fn (calls w)) as [v|e].
  - do 2 eexists. repeat split.
  - unfold failed. cbn [boot world state calls pworld ticks ref attempt delay
                          elapsed errors start waits allocs].
    match goal with |- context [policy ?s None rt (pworld w)] =>
      destruct (policy s None rt (pworld w)) as [[d|e'] pw] end.
    + unfold wait. rewrite Haborted. do 2 eexists. repeat split.
    + do 2 eexists. repeat split.
Qed.

Lemma exec_with_aborted_signal_witness :
  (forall k, aborted Fixture.cancelled k = true)
  /\ exists r m,
       exec Fixture.rt Fixture.fn Fixture.linear (Some Fixture.cancelled) 4
         Fixture.w = Some (r, m)
       /\ calls (world m) = 1%nat
       /\ r = Thrown (JsError "Aborted").
Proof.
  assert (H : forall k, aborted Fixture.cancelled k = true)
    by (intro k; reflexivity).
  split; [exact H|].
  destruct (@exec_with_aborted_signal unit Fixture.rt Fixture.fn Fixture.linear
              Fixture.cancelled Fixture.w 3 H) as (r & m & Hexec & Hcalls & Hr).
  exists r, m. split; [exact Hexec|]. split; [exact Hcalls | exact Hr].
Defined.

(** C2, as stated, fails: with the signal aborted beforehand and the
    default [Backoff()] as policy, the always-failing operation is
    invoked once, not zero times, before the engine fails with the
    cancellation reason; and an operation that succeeds returns its
    value although the signal is aborted. *)
Lemma aborted_signal_still_attempts_once :
  exists backoff m m',
    Backoff None = Normal backoff
    /\ exec Fixture.rt Fixture.fn backoff (Some Fixture.cancelled) 3 Fixture.w
       = Some (Thrown (JsError "Aborted"), m)
    /\ calls (world m) = 1%nat
    /\ calls (world m) <> 0%nat
    /\ exec Fixture.rt (fun _ => Normal 42%Z) backoff (Some Fixture.cancelled) 3
         Fixture.w
       = Some (Normal 42%Z, m').
Proof.
  do 3 eexists. split; [reflexivity|].
  split; [vm_compute; reflexivity|].
  split; [reflexivity|]. split; [discriminate|].
  vm_compute. reflexivity.
Qed.

(** ** Error branding *)

(** C8 (the code departs from the claim).  [BrandError] appends the
    error it caught to [state.errors], which the engine has already
    extended with that same error: after [N] failures the aggregate
    lists [N + 1] errors, the last one twice.  On the state of the
    repository's own unit test (two errors) the list has three entries,
    and a run of the engine with two failures ends with three. *)
Theorem BrandError_repeats_last_error :
  (forall state rt w,
      BrandError state None rt w
      = (Thrown (JsRetryyyError (errors state ++ [error state]) (error state)),
         w))
  /\ (forall rt w,
         BrandError
           {| ref := 0; attempt := 2; delay := 0; elapsed := 0;
              error := JsError "Last error";
              errors := [JsError "Previous error"; JsError "Last error"];
              start := 0 |} None rt w
         = (Thrown (JsRetryyyError
                      [JsError "Previous error"; JsError "Last error";
                       JsError "Last error"]
                      (JsError "Last error")), w))
  /\ (exists backoff j m,
         Backoff None = Normal backoff
         /\ join [One BrandError;
                  One (Breaker (Some {| breaker_max := Some 2 |}));
                  One backoff] = Normal j
         /\ exec Fixture.rt Fixture.fn j None 5 Fixture.w
            = Some (Thrown (JsRetryyyError
                              [JsError "failure 1"; JsError "failure 2";
                               JsError "failure 2"]
                              (JsError "failure 2")), m)
         /\ calls (world m) = 2%nat).
Proof.
  split; [|split].
  - reflexivity.
  - reflexivity.
  - do 3 eexists. split; [reflexivity|]. split; [reflexivity|].
    split; vm_compute; reflexivity.
Qed.

(** * Further properties of the engine and of the policy units *)

(** ** Runs of the engine *)

Section EngineRuns.

Context {Output : Type}.

Variable rt : Runtime.
Variable fn : nat -> Completion Output.
Variable policy : RetryPolicy.
Variable signal : option AbortSignal.

Lemma turn_again_inv (m m' : Machine) :
  turn rt fn policy signal m = Again m' ->
  exists e d pw,
    fn (calls (world m)) = Thrown e
    /\ policy (failed rt m e) None rt (pworld (world m)) = (Normal d, pw)
    /\ wait d signal (waits (world m)) = Normal tt
    /\ m' = retried rt m e d pw.
Proof.
  unfold turn. destruct (fn (calls (world m))) as [v|e]; [discriminate|].
  destruct (policy (failed rt m e) None rt (pworld (world m)))
    as [[d|e'] pw] eqn:Hp; [|discriminate].
  destruct (wait d signal (waits (world m))) as [[]|r] eqn:Hw; [|discriminate].
  intro H. injection H as <-. exists e, d, pw. auto.
Qed.

Lemma turn_success (m : Machine) (v : Output) :
  fn (calls (world m)) = Normal v ->
  exists m', turn rt fn policy signal m = Settled (Normal v) m'
             /\ state m' = state m
             /\ calls (world m') = S (calls (world m)).
Proof.
  intro Hfn. unfold turn. rewrite Hfn. eexists. repeat split.
Qed.

Lemma turn_retry (m : Machine) (e : JsValue) (d : Q) (pw : PolicyWorld) :
  fn (calls (world m)) = Thrown e ->
  policy (failed rt m e) None rt (pworld (world m)) = (Normal d, pw) ->
  wait d signal (waits (world m)) = Normal tt ->
  turn rt fn policy signal m = Again (retried rt m e d pw).
Proof.
  intros Hfn Hp Hw. unfold turn. now rewrite Hfn, Hp, Hw.
Qed.


Lemma turn_given_up (m : Machine) (e e' : JsValue) (pw : PolicyWorld) :
  fn (calls (world m)) = Thrown e ->
  policy (failed rt m e) None rt (pworld (world m)) = (Thrown e', pw) ->
  exists m', turn rt fn policy signal m = Settled (Thrown e') m'
             /\ state m' = failed rt m e
             /\ calls (world m') = S (calls (world m)).
Proof.
  intros Hfn Hp. unfold turn. rewrite Hfn, Hp. eexists. repeat split.
Qed.

(** [k] failures in a row, each followed by a delay and an undisturbed
    wait, cost [k] turns and lead to a machine [k] attempts further. *)
Lemma loop_retries (k : nat) :
  forall (m : Machine) (fuel : nat),
    returns rt policy ->
    (forall i, (i < k)%nat -> exists e, fn (calls (world m) + i)%nat = Thrown e) ->
    (forall ms i, (i < k)%nat ->
                  wait ms signal (waits (world m) + i)%nat = Normal tt) ->
    exists m',
      loop rt fn policy signal (k + fuel) m = loop rt fn policy signal fuel m'
      /\ calls (world m') = (calls (world m) + k)%nat
      /\ waits (world m') = (waits (world m) + k)%nat
      /\ attempt (state m') = (attempt (state m) + Z.of_nat k)%Z
      /\ Z.of_nat (List.length (errors (state m')))
         = (Z.of_nat (List.length (errors (state m))) + Z.of_nat k)%Z.
Proof.
  induction k as [|k IH]; intros m fuel Hret Hfn Hwait.
  - exists m. simpl. rewrite !Nat.add_0_r, !Z.add_0_r. auto.
  - destruct (Hfn 0%nat) as (e & He); [lia|]. rewrite Nat.add_0_r in He.
    destruct (Hret (failed rt m e) (pworld (world m))) as (d & pw & Hp).
    pose proof (Hwait d 0%nat ltac:(lia)) as Hw. rewrite Nat.add_0_r in Hw.
    pose proof (turn_retry He Hp Hw) as Hturn.
    destruct (IH (retried rt m e d pw) fuel Hret) as (m' & Hloop & Hc & Hw' & Ha & Hl).
    + intros i Hi. destruct (Hfn (S i)) as (e' & He'); [lia|].
      exists e'. simpl. rewrite <- He'. f_equal. lia.
    + intros ms i Hi. simpl. rewrite <- (Hwait ms (S i)) by lia. f_equal. lia.
    + exists m'. change (S k + fuel)%nat with (S (k + fuel)).
      rewrite (@loop_again _ _ _ _ _ (k + fuel) _ _ Hturn).
      split; [exact Hloop|]. simpl in Hc, Hw', Ha, Hl.
      rewrite length_app in Hl. simpl in Hl.
      repeat split; lia.
Qed.

End EngineRuns.

(** X1.  An operation that fails [k] times and then succeeds, under a
    policy that keeps returning delays and without cancellation, is
    invoked exactly [k + 1] times; the engine returns its value, and
    the state has counted [k] attempts. *)
Theorem exec_succeeds_after {Output : Type} (rt : Runtime)
        (fn : nat -> Completion Output) (policy : RetryPolicy)
        (signal : option AbortSignal) (w : World) (k fuel : nat) (v : Output) :
  returns rt policy -> quiet signal ->
  (forall i, (i < k)%nat -> exists e, fn (calls w + i)%nat = Thrown e) ->
  fn (calls w + k)%nat = Normal v ->
  (k < fuel)%nat ->
  exists m,
    exec rt fn policy signal fuel w = Some (Normal v, m)
    /\ calls (world m) = (calls w + k + 1)%nat
    /\ attempt (state m) = Z.of_nat k
    /\ List.length (errors (state m)) = k.
Proof.
  intros Hret Hquiet Hfail Hok Hfuel. unfold exec.
  destruct (@loop_retries Output rt fn policy signal k (boot rt w)
              (fuel - k) Hret) as (m1 & Hloop & Hc & _ & Ha & Hl).
  - exact Hfail.
  - intros ms i _. apply Hquiet.
  - replace (k + (fuel - k))%nat with fuel in Hloop by lia.
    rewrite Hloop. destruct (fuel - k)%nat as [|f] eqn:Ef; [lia|].
    destruct (@turn_success Output rt fn policy signal m1 v)
      as (m & Hturn & Hs & Hcalls).
    { rewrite Hc. exact Hok. }
    exists m. rewrite (@loop_settled _ _ _ _ _ f _ _ _ Hturn).
    split; [reflexivity|]. rewrite Hs, Hcalls, Hc.
    cbn [boot state world calls attempt errors List.length] in *.
    repeat split; lia.
Qed.

Lemma exec_succeeds_after_witness :
  returns Fixture.rt Fixture.linear /\ quiet None
  /\ exec Fixture.rt
       (fun i => if (i <? 2)%nat then Thrown (Fixture.failure i) else Normal 7%Z)
       Fixture.linear None 3 Fixture.w
     = Some (Normal 7%Z,
             {| state := {| ref := 0; attempt := 2; delay := 2 * 1000;
                            elapsed := 20;
                            error := JsError "failure 2";
                            errors := [JsError "failure 1"; JsError "failure 2"];
                            start := 1000 |};
                world := {| calls := 3; ticks := 3; waits := 2; allocs := 1;
                            pworld := Fixture.pw |} |}).
Proof.
  split; [exact Fixture_linear_returns|]. split; [exact quiet_without_signal|].
  destruct (@exec_succeeds_after Z Fixture.rt
              (fun i => if (i <? 2)%nat then Thrown (Fixture.failure i)
                        else Normal 7%Z)
              Fixture.linear None Fixture.w 2 3 7%Z
              Fixture_linear_returns quiet_without_signal)
    as (m & Hexec & _).
  - intros i Hi. exists (Fixture.failure i).
    destruct i as [|[|i]]; [reflexivity | reflexivity | lia].
  - reflexivity.
  - lia.
  - rewrite Hexec. vm_compute in Hexec. injection Hexec as <-. reflexivity.
Defined.



(** From a machine that is [k + 1] attempts away from the point where
    the policy gives up, the loop settles within [k + 1] invocations. *)
Lemma loop_bounded {Output : Type} (rt : Runtime)
      (fn : nat -> Completion Output) (policy : RetryPolicy)
      (signal : option AbortSignal) (N : Z) :
  gives_up_at rt N policy ->
  forall k m f,
    (N <= attempt (state m) + 1 + Z.of_nat k)%Z -> (k < f)%nat ->
    exists r m',
      loop rt fn policy signal f m = Some (r, m')
      /\ (calls (world m) < calls (world m')
          <= calls (world m) + k + 1)%nat.
Proof.
  intro Hgive.
  induction k as [|k IH]; intros m f Hatt Hf; (destruct f as [|f]; [lia|]).
  - destruct (fn (calls (world m))) as [v|e] eqn:Hfn.
    + destruct (@turn_success Output rt fn policy signal m v Hfn)
        as (m' & Hturn & _ & Hc).
      exists (Normal v), m'.
      rewrite (@loop_settled _ _ _ _ _ f _ _ _ Hturn). split; [reflexivity|lia].
    + destruct (Hgive (failed rt m e) (pworld (world m))) as (e' & pw & Hp).
      { cbn [failed attempt]. lia. }
      destruct (@turn_given_up Output rt fn policy signal m e e' pw Hfn Hp)
        as (m' & Hturn & _ & Hc).
      exists (Thrown e'), m'.
      rewrite (@loop_settled _ _ _ _ _ f _ _ _ Hturn). split; [reflexivity|lia].
  - destruct (turn rt fn policy signal m) as [r m'|m'] eqn:Hturn.
    + exists r, m'. rewrite (@loop_settled _ _ _ _ _ f _ _ _ Hturn).
      split; [reflexivity|].
      unfold turn in Hturn.
      destruct (fn (calls (world m))); [injection Hturn as _ <-; simpl; lia|].
      destruct (policy _ None rt _) as [[d|e'] pw];
        [destruct (wait d signal _)|];
        try discriminate; injection Hturn as _ <-; simpl; lia.
    + destruct (turn_again_inv _ _ _ _ _ Hturn) as (e & d & pw & _ & _ & _ & ->).
      rewrite (@loop_again _ _ _ _ _ f _ _ Hturn).
      destruct (IH (retried rt m e d pw) f) as (r & m' & Hl & Hc).
      * cbn [retried state set_delay failed attempt]. lia.
      * lia.
      * exists r, m'. split; [exact Hl|].
        cbn [retried world calls] in Hc. lia.
Qed.

(** X3.  Under a policy that throws on every state with [N] attempts or
    more, the engine settles whatever the operation and the signal do,
    after at least one and at most [N] invocations. *)
Theorem exec_settles_within {Output : Type} (rt : Runtime)
        (fn : nat -> Completion Output) (policy : RetryPolicy)
        (signal : option AbortSignal) (w : World) (N : Z) (fuel : nat) :
  gives_up_at rt N policy -> (1 <= N)%Z -> (Z.to_nat N <= fuel)%nat ->
  exists r m,
    exec rt fn policy signal fuel w = Some (r, m)
    /\ (calls w < calls (world m) <= calls w + Z.to_nat N)%nat.
Proof.
  intros Hgive HN Hfuel. unfold exec.
  destruct (@loop_bounded Output rt fn policy signal N Hgive
              (Z.to_nat N - 1)%nat (boot rt w) fuel) as (r & m & Hl & Hc).
  - cbn [boot state attempt]. lia.
  - lia.
  - exists r, m. split; [exact Hl|].
    cbn [boot world calls] in Hc. lia.
Qed.

Lemma Breaker_headed_gives_up (rt : Runtime) (N : Z)
      (policies : list PolicyArg) (rest : list RetryPolicy) :
  flat policies
  = Breaker (Some {| breaker_max := Some (inject_Z N) |}) :: rest ->
  exists j, join policies = Normal j /\ gives_up_at rt N j.
Proof.
  intro Hflat. destruct rest as [|q rest].
  - exists (Breaker (Some {| breaker_max := Some (inject_Z N) |})).
    split; [unfold join; now rewrite Hflat|].
    intros state w _. exists (error state), w. unfold Breaker. simpl.
    now destruct (Qleb (inject_Z N) (inject_Z (attempt state))).
  - destruct (@join_chain policies _ (q :: rest) Hflat) as (j & _ & Hj);
      [discriminate|].
    eexists. split; [exact Hj|].
    intros state w Hatt. exists (error state), w.
    unfold join_callback, Breaker. simpl. rewrite Qleb_inject_Z.
    apply Z.leb_le in Hatt. now rewrite Hatt.
Qed.

Lemma exec_settles_within_witness :
  (1 <= 3)%Z /\ (Z.to_nat 3 <= 4)%nat
  /\ exists j,
       join [One (Breaker (Some {| breaker_max := Some (inject_Z 3) |}));
             One FullJitter; One Fixture.linear] = Normal j
       /\ gives_up_at Fixture.rt 3 j
       /\ exists r m,
            exec Fixture.rt Fixture.fn j (Some Fixture.cancelled) 4 Fixture.w
            = Some (r, m)
            /\ (calls Fixture.w < calls (world m)
                <= calls Fixture.w + Z.to_nat 3)%nat.
Proof.
  split; [lia|]. split; [simpl; lia|].
  destruct (@Breaker_headed_gives_up Fixture.rt 3
              [One (Breaker (Some {| breaker_max := Some (inject_Z 3) |}));
               One FullJitter; One Fixture.linear]
              [FullJitter; Fixture.linear] eq_refl) as (j & Hj & Hgive).
  exists j. split; [exact Hj|]. split; [exact Hgive|].
  apply exec_settles_within; [exact Hgive | lia | simpl; lia].
Defined.

(** ** The default composite *)

(** [Default(options)] written out as the chain it builds. *)
Lemma Default_chain (console : Console) (Math : MathLib) (factors : nat)
      (options : option DefaultOptions) :
  let logger :=
    Logger console
      (Some {| logger_warn := loggerOrNoop (opt_field options default_logWarn);
               logger_error :=
                 loggerOrNoop (opt_field options default_logError) |}) in
  let timeout :=
    Timeout (Some {| timeout_after := opt_field options default_timeout |}) in
  let breaker :=
    Breaker (Some {| breaker_max := opt_field options default_maxAttempts |}) in
  let polly : Next :=
    fun state =>
      PollyJitter Math factors
        (Some {| polly_initial := opt_field options default_initialDelay;
                 polly_max := opt_field options default_maxDelay |})
        state (option_map as_next (opt_field options default_next)) in
  let tail : Next :=
    if opt_field options default_fastTrack ?? false
    then fun state => FastTrack state (Some polly)
    else polly in
  Default console Math factors options
  = Normal (fun state _ =>
              logger state
                (Some (fun state =>
                         timeout state
                           (Some (fun state => breaker state (Some tail)))))).
Proof.
  destruct options as [[ft id le lw ma md tmo nx]|]; simpl.
  - destruct ft as [[|]|]; destruct nx as [nx|]; reflexivity.
  - reflexivity.
Qed.

Lemma Breaker_fails_at (options : option BreakerOptions) (rt : Runtime)
      (state : RetryState) (next : option Next) :
  opt_field options breaker_max ?? 10 <= inject_Z (attempt state) ->
  fails_at rt (fun s => Breaker options s next) state.
Proof.
  intros Hmax w. apply Qleb_le in Hmax. unfold Breaker. rewrite Hmax.
  do 2 eexists. reflexivity.
Qed.

Lemma Timeout_fails_at (options : option TimeoutOptions) (rt : Runtime)
      (state : RetryState) (next : Next) :
  fails_at rt next state ->
  fails_at rt (fun s => Timeout options s (Some next)) state.
Proof.
  intros Hnext w. unfold Timeout. cbn [absent call]. rewrite orb_false_r.
  destruct (Qltb _ _); [do 2 eexists; reflexivity | apply Hnext].
Qed.

Lemma Logger_fails_at (console : Console) (options : option LoggerOptions)
      (rt : Runtime) (state : RetryState) (next : Next) :
  fails_at rt next state ->
  fails_at rt (fun s => Logger console options s (Some next)) state.
Proof.
  intros Hnext w. unfold Logger, bind, try_catch. cbn [absent call].
  match goal with |- context [(?warn ?msg (error state)) rt w] =>
    destruct (warn msg (error state) rt w) as [[[]|e0] w1] end;
    [|do 2 eexists; reflexivity].
  destruct (Hnext w1) as (e & w2 & ->).
  match goal with |- context [(?sink ?msg e) rt w2] =>
    destruct (sink msg e rt w2) as [[[]|e1] w3] end;
    do 2 eexists; reflexivity.
Qed.

Lemma Default_gives_up (console : Console) (Math : MathLib) (factors : nat)
      (options : option DefaultOptions) (rt : Runtime) (N : Z) :
  opt_field options default_maxAttempts ?? 10 <= inject_Z N ->
  exists p, Default console Math factors options = Normal p
            /\ gives_up_at rt N p.
Proof.
  intro Hmax. eexists. split; [apply Default_chain|].
  intros state w Hatt. revert w.
  apply Logger_fails_at, Timeout_fails_at, Breaker_fails_at.
  cbn [opt_field breaker_max].
  eapply Qle_trans; [exact Hmax|]. rewrite <- Zle_Qle. exact Hatt.
Qed.

(** X4.  [Default(options)] always builds, and a run under it settles
    after at most [maxAttempts] invocations (10 by default), whatever
    the operation, the logging functions, the timeout, the jitter and
    the signal do. *)
Theorem Default_bounds_invocations {Output : Type} (console : Console)
        (Math : MathLib) (factors : nat) (options : option DefaultOptions)
        (rt : Runtime) (fn : nat -> Completion Output)
        (signal : option AbortSignal) (w : World) (N : Z) (fuel : nat) :
  opt_field options default_maxAttempts ?? 10 <= inject_Z N ->
  (1 <= N)%Z -> (Z.to_nat N <= fuel)%nat ->
  exists p r m,
    Default console Math factors options = Normal p
    /\ exec rt fn p signal fuel w = Some (r, m)
    /\ (calls w < calls (world m) <= calls w + Z.to_nat N)%nat.
Proof.
  intros Hmax HN Hfuel.
  destruct (@Default_gives_up console Math factors options rt N Hmax)
    as (p & Hp & Hgive).
  destruct (@loop_bounded Output rt fn p signal N Hgive
              (Z.to_nat N - 1)%nat (boot rt w) fuel) as (r & m & Hexec & Hc).
  - cbn [boot state attempt]. lia.
  - lia.
  - exists p, r, m. split; [exact Hp|]. split; [exact Hexec|].
    cbn [boot world calls] in Hc. lia.
Qed.

Lemma Default_bounds_invocations_witness :
  opt_field (Some Fixture.options) default_maxAttempts ?? 10 <= inject_Z 2
  /\ (1 <= 2)%Z /\ (Z.to_nat 2 <= 2)%nat
  /\ exists p r m,
       Default Fixture.console Fixture.Math 0 (Some Fixture.options) = Normal p
       /\ exec Fixture.rt Fixture.fn p None 2 Fixture.w = Some (r, m)
       /\ (calls Fixture.w < calls (world m)
           <= calls Fixture.w + Z.to_nat 2)%nat.
Proof.
  assert (H : opt_field (Some Fixture.options) default_maxAttempts ?? 10
              <= inject_Z 2) by apply Qle_refl.
  split; [exact H|]. split; [lia|]. split; [simpl; lia|].
  apply (@Default_bounds_invocations unit Fixture.console Fixture.Math 0
           (Some Fixture.options) Fixture.rt Fixture.fn None Fixture.w 2 2 H);
    [lia | simpl; lia].
Defined.


Lemma Logger_returns_inv (console : Console) (options : option LoggerOptions)
      (state : RetryState) (next : Next) (rt : Runtime) (w w' : PolicyWorld)
      (d : Q) :
  Logger console options state (Some next) rt w = (Normal d, w') ->
  exists w1, next state rt w1 = (Normal d, w').
Proof.
  unfold Logger, bind, try_catch. cbn [absent call].
  match goal with |- context [(?warn ?msg (error state)) rt w] =>
    destruct (warn msg (error state) rt w) as [[[]|e0] w1] end;
    [|discriminate].
  destruct (next state rt w1) as [[d0|e] w2] eqn:Hnext.
  - intro H. injection H as <- <-. now exists w1.
  - match goal with |- context [(?sink ?msg e) rt w2] =>
      destruct (sink msg e rt w2) as [[[]|e1] w3] end; discriminate.
Qed.






(** ** The failure history *)



(** ** Branded failures *)

Lemma BrandError_brands (state : RetryState) (next : option Next)
      (rt : Runtime) (w w' : PolicyWorld) (e : JsValue) :
  BrandError state next rt w = (Thrown e, w') ->
  exists c, e = JsRetryyyError (errors state ++ [c]) c.
Proof.
  unfold BrandError, try_catch.
  destruct ((if absent next then throw (error state) else call next state)
              rt w) as [[d|c] w1]; [discriminate|].
  unfold throw, RetryyyError, concat1. intro H. injection H as <- _.
  now exists c.
Qed.

(** X7.  With [BrandError] as the first unit of the chain and no
    cancellation, every failure of a run is a [RetryyyError]: its list
    is the whole failure history followed by its cause, and a delay
    returned by the rest of the chain passes through unchanged. *)
Theorem BrandError_brands_every_failure {Output : Type} (rt : Runtime)
        (fn : nat -> Completion Output) (signal : option AbortSignal)
        (policies : list PolicyArg) (rest : list RetryPolicy) :
  flat policies = BrandError :: rest -> quiet signal ->
  exists j,
    join policies = Normal j
    /\ (forall fuel w e m,
           exec rt fn j signal fuel w = Some (Thrown e, m) ->
           exists c, e = JsRetryyyError (errors (state m) ++ [c]) c)
    /\ (forall q rest' j' state w d w',
           rest = q :: rest' -> join (map One rest) = Normal j' ->
           j' state None rt w = (Normal d, w') ->
           j state None rt w = (Normal d, w')).
Proof.
  intros Hflat Hquiet.
  assert (Hj : exists j,
             join policies = Normal j
             /\ (forall state rt,
                    exists next, forall w,
                      j state None rt w = BrandError state next rt w)
             /\ (forall q rest' j',
                    rest = q :: rest' -> join (map One rest) = Normal j' ->
                    j = join_callback j' BrandError)).
  { destruct rest as [|q rest'].
    - exists BrandError. split; [unfold join; now rewrite Hflat|].
      split; [intros; now exists None | discriminate].
    - destruct (@join_chain policies _ (q :: rest') Hflat) as (j' & Hj' & Hj);
        [discriminate|].
      exists (join_callback j' BrandError). split; [exact Hj|]. split.
      + intros state rt0. now exists (Some (as_next j')).
      + intros q0 rest0 j0 _ Hj0. congruence. }
  destruct Hj as (j & Hjoin & Hbrand & Hshape).
  exists j. split; [exact Hjoin|]. split.
  - intros fuel w. unfold exec. generalize (boot rt w). clear w.
    induction fuel as [|fuel IH]; intros m0 e m Hloop; [discriminate|].
    simpl in Hloop.
    destruct (turn rt fn j signal m0) as [r m1|m1] eqn:Hturn.
    + injection Hloop as -> ->. unfold turn in Hturn.
      destruct (fn (calls (world m0))) as [v|e0]; [discriminate|].
      destruct (j (failed rt m0 e0) None rt (pworld (world m0)))
        as [[d|e'] pw] eqn:Hp.
      * rewrite Hquiet in Hturn. discriminate.
      * injection Hturn as <- <-. cbn [state].
        destruct (Hbrand (failed rt m0 e0) rt) as (next & Hnext).
        rewrite Hnext in Hp. exact (BrandError_brands _ _ _ _ Hp).
    + exact (IH m1 e m Hloop).
  - intros q rest' j' state w d w' Hrest Hj' Hd.
    rewrite (Hshape q rest' j' Hrest Hj').
    unfold join_callback, BrandError, try_catch. cbn [absent call].
    unfold as_next. now rewrite Hd.
Qed.

Lemma BrandError_brands_every_failure_witness :
  flat [One BrandError; One (Breaker (Some {| breaker_max := Some 2 |}));
        One Fixture.linear]
  = BrandError :: [Breaker (Some {| breaker_max := Some 2 |}); Fixture.linear]
  /\ quiet None
  /\ exists j e m c,
       join [One BrandError; One (Breaker (Some {| breaker_max := Some 2 |}));
             One Fixture.linear] = Normal j
       /\ exec Fixture.rt Fixture.fn j None 5 Fixture.w = Some (Thrown e, m)
       /\ e = JsRetryyyError (errors (state m) ++ [c]) c.
Proof.
  split; [reflexivity|]. split; [exact quiet_without_signal|].
  destruct (@BrandError_brands_every_failure unit Fixture.rt Fixture.fn None
              [One BrandError; One (Breaker (Some {| breaker_max := Some 2 |}));
               One Fixture.linear]
              [Breaker (Some {| breaker_max := Some 2 |}); Fixture.linear]
              eq_refl quiet_without_signal) as (j & Hj & Hfail & _).
  destruct (exec Fixture.rt Fixture.fn j None 5 Fixture.w)
    as [[[v|e] m]|] eqn:Hexec.
  - exfalso. injection Hj as <-. vm_compute in Hexec. discriminate Hexec.
  - destruct (Hfail 5%nat Fixture.w e m Hexec) as (c & Hc).
    exists j, e, m, c. auto.
  - exfalso. injection Hj as <-. vm_compute in Hexec. discriminate Hexec.
Defined.

(** ** Nested compositions *)

Lemma reduceRight_app_last {A} (callback : A -> A -> A) (ps qs : list A)
      (jq : A) :
  reduceRight callback qs = Normal jq ->
  reduceRight callback (ps ++ [jq]) = reduceRight callback (ps ++ qs).
Proof.
  intro Hq.
  assert (Hne : qs <> []) by (intro E; subst qs; discriminate Hq).
  induction ps as [|p ps IH].
  - simpl. rewrite Hq. reflexivity.
  - simpl.
    destruct (@reduceRight_cons A callback p (ps ++ [jq])) as (j1 & H1 & ->).
    { destruct ps; discriminate. }
    destruct (@reduceRight_cons A callback p (ps ++ qs)) as (j2 & H2 & ->).
    { destruct ps; simpl; [exact Hne | discriminate]. }
    rewrite IH, H2 in H1. injection H1 as <-. reflexivity.
Qed.

(** X8.  A joined policy used as the last argument of [join] composes
    like its own units: [join(...ps, join(...qs))] is the policy
    [join(...ps, ...qs)]. *)
Theorem join_nested_last (ps qs : list RetryPolicy) (jq : RetryPolicy) :
  join (map One qs) = Normal jq ->
  join (map One ps ++ [One jq]) = join (map One (ps ++ qs)).
Proof.
  unfold join. rewrite !flat_map_One.
  replace (flat (map One ps ++ [One jq])) with (ps ++ [jq]).
  - apply reduceRight_app_last.
  - unfold flat. rewrite flat_map_app. fold (flat (map One ps)).
    now rewrite flat_map_One.
Qed.

Lemma join_nested_last_witness :
  join (map One [Breaker None; Fixture.linear])
  = Normal (join_callback Fixture.linear (Breaker None))
  /\ join (map One [FastTrack; BrandError]
           ++ [One (join_callback Fixture.linear (Breaker None))])
     = join (map One ([FastTrack; BrandError]
                      ++ [Breaker None; Fixture.linear])).
Proof.
  split; [reflexivity|].
  apply (@join_nested_last [FastTrack; BrandError]
           [Breaker None; Fixture.linear]
           (join_callback Fixture.linear (Breaker None))).
  reflexivity.
Defined.

(** X9.  A joined policy used as the first argument of [join] cuts the
    chain: [join(join(...ps), ...rest)] behaves as [join(...ps)] alone,
    and no unit of [rest] is ever run. *)
Theorem join_nested_first (ps : list RetryPolicy) (jp : RetryPolicy)
        (rest : list PolicyArg) :
  (2 <= List.length ps)%nat -> join (map One ps) = Normal jp ->
  exists j,
    join (One jp :: rest) = Normal j
    /\ forall state next rt w, j state next rt w = jp state None rt w.
Proof.
  intros Hlen Hjp.
  assert (Hignore : forall state next rt w,
             jp state next rt w = jp state None rt w).
  { destruct ps as [|p [|q ps']]; simpl in Hlen; try lia.
    destruct (@join_chain (map One (p :: q :: ps')) p (q :: ps'))
      as (j' & _ & Hj); [now rewrite flat_map_One | discriminate |].
    rewrite Hjp in Hj. injection Hj as ->. reflexivity. }
  destruct (flat rest) as [|q rest'] eqn:Hrest.
  - exists jp. split; [|exact Hignore].
    unfold join. simpl. change (flat_map _ rest) with (flat rest).
    now rewrite Hrest.
  - destruct (@join_chain (One jp :: rest) jp (q :: rest')) as (j' & _ & Hj).
    + simpl. change (flat_map _ rest) with (flat rest). now rewrite Hrest.
    + discriminate.
    + exists (join_callback j' jp). split; [exact Hj|].
      intros state next rt w. unfold join_callback. apply Hignore.
Qed.

Lemma join_nested_first_witness :
  (2 <= List.length [Breaker None; Fixture.linear])%nat
  /\ join (map One [Breaker None; Fixture.linear])
     = Normal (join_callback Fixture.linear (Breaker None))
  /\ exists j,
       join [One (join_callback Fixture.linear (Breaker None)); One BrandError]
       = Normal j
       /\ forall state next rt w,
            j state next rt w
            = join_callback Fixture.linear (Breaker None) state None rt w.
Proof.
  split; [simpl; lia|]. split; [reflexivity|].
  apply (@join_nested_first [Breaker None; Fixture.linear]); [simpl; lia|].
  reflexivity.
Defined.

(** ** Backoff *)

Lemma Backoff_builds (options : option BackoffOptions) :
  0 < opt_field options backoff_delay ?? 150 ->
  0 < opt_field options backoff_exp ?? 2 ->
  Backoff options
  = Normal (fun state next =>
              void_call next state ;;;
              ret (Qmin (opt_field options backoff_max ?? 30000)
                     ((opt_field options backoff_delay ?? 150)
                      * (opt_field options backoff_exp ?? 2)
                        ^ (attempt state - 1)))).
Proof.
  intros Hd He. unfold Backoff.
  destruct (Qleb (opt_field options backoff_delay ?? 150) 0) eqn:Ed.
  { apply Qleb_le in Ed. exfalso. exact (Qlt_not_le _ _ Hd Ed). }
  destruct (Qleb (opt_field options backoff_exp ?? 2) 0) eqn:Ee.
  { apply Qleb_le in Ee. exfalso. exact (Qlt_not_le _ _ He Ee). }
  reflexivity.
Qed.

(** X10.  With [exp >= 1] the delays of [Backoff] never decrease from
    one attempt to a later one and never exceed [max]; once
    [delay * exp^(attempt - 1)] has reached [max], the delay is
    [max]. *)
Theorem Backoff_grows_to_cap (options : option BackoffOptions) :
  let delay := opt_field options backoff_delay ?? 150 in
  let exp := opt_field options backoff_exp ?? 2 in
  let max := opt_field options backoff_max ?? 30000 in
  0 < delay -> 1 <= exp ->
  exists policy,
    Backoff options = Normal policy
    /\ forall s1 s2 rt w,
         (attempt s1 <= attempt s2)%Z ->
         exists d1 d2,
           policy s1 None rt w = (Normal d1, w)
           /\ policy s2 None rt w = (Normal d2, w)
           /\ d1 <= d2 /\ d2 <= max
           /\ (max <= delay * exp ^ (attempt s2 - 1) -> d2 == max).
Proof.
  intros delay exp max Hd He.
  assert (He0 : 0 < exp) by (eapply Qlt_le_trans; [|exact He]; reflexivity).
  eexists. split; [apply Backoff_builds; assumption|].
  intros s1 s2 rt w Hatt. do 2 eexists.
  split; [reflexivity|]. split; [reflexivity|].
  fold delay exp max. split; [|split].
  - apply Q.min_le_compat_l. apply Qmult_le_l; [exact Hd|].
    apply Qpower_le_compat_l; [lia | exact He].
  - apply Q.le_min_l.
  - intro Hcap. now apply Q.min_l.
Qed.

Lemma Backoff_grows_to_cap_witness :
  0 < opt_field (@None BackoffOptions) backoff_delay ?? 150
  /\ 1 <= opt_field (@None BackoffOptions) backoff_exp ?? 2
  /\ exists policy,
       Backoff None = Normal policy
       /\ forall s1 s2 rt w,
            (attempt s1 <= attempt s2)%Z ->
            exists d1 d2,
              policy s1 None rt w = (Normal d1, w)
              /\ policy s2 None rt w = (Normal d2, w)
              /\ d1 <= d2 /\ d2 <= 30000.
Proof.
  split; [reflexivity|]. split; [discriminate|].
  destruct (Backoff_grows_to_cap None) as (policy & Hp & Hmono);
    [reflexivity | discriminate |].
  exists policy. split; [exact Hp|].
  intros s1 s2 rt w Hatt.
  destruct (Hmono s1 s2 rt w Hatt) as (d1 & d2 & H1 & H2 & Hle & Hcap & _).
  exists d1, d2. auto.
Defined.

(** X11.  With [exp = 1] the delay of [Backoff] is the same on every
    attempt: [min(max, delay)]. *)
Theorem Backoff_exp_one_is_constant (options : option BackoffOptions) :
  let delay := opt_field options backoff_delay ?? 150 in
  let max := opt_field options backoff_max ?? 30000 in
  0 < delay -> opt_field options backoff_exp ?? 2 == 1 ->
  exists policy,
    Backoff options = Normal policy
    /\ forall state rt w,
         exists d, policy state None rt w = (Normal d, w)
                   /\ d == Qmin max delay.
Proof.
  intros delay max Hd He.
  eexists. split.
  - apply Backoff_builds; [exact Hd | rewrite He; reflexivity].
  - intros state rt w. eexists. split; [reflexivity|].
    fold delay max. rewrite He, Qpower_1, Qmult_1_r. reflexivity.
Qed.

Lemma Backoff_exp_one_is_constant_witness :
  0 < 250 /\ 1 == 1
  /\ exists policy,
       Backoff (Some {| backoff_delay := Some 250; backoff_exp := Some 1;
                        backoff_max := None |}) = Normal policy
       /\ forall state rt w,
            exists d, policy state None rt w = (Normal d, w)
                      /\ d == Qmin 30000 250.
Proof.
  split; [reflexivity|]. split; [reflexivity|].
  apply (Backoff_exp_one_is_constant
           (Some {| backoff_delay := Some 250; backoff_exp := Some 1;
                    backoff_max := None |})); reflexivity.
Defined.

(** ** Jitter *)

(** X12.  Around a non-negative delay [d] returned by [next], with
    draws in [[0, 1)]: [FullJitter] returns a value in [[0, d]],
    [EqualJitter] one in [[d/2, d]], [Jitter] with its defaults one in
    [[3d/4, 5d/4]]; in general [Jitter] returns
    [d * (1 + offset + range * r)] for the one draw [r] it makes after
    [next] has run. *)
Theorem Jitter_windows (rt : Runtime) (state : RetryState) (next : Next)
        (w w1 : PolicyWorld) (d : Q) :
  unit_draws rt -> next state rt w = (Normal d, w1) -> 0 <= d ->
  (exists x w', FullJitter state (Some next) rt w = (Normal x, w')
                /\ 0 <= x /\ x <= d)
  /\ (exists x w', EqualJitter state (Some next) rt w = (Normal x, w')
                   /\ d * (1#2) <= x /\ x <= d)
  /\ (exists x w',
         Jitter {| jitter_offset := None; jitter_range := None |}
           state (Some next) rt w = (Normal x, w')
         /\ d * (3#4) <= x /\ x <= d * (5#4))
  /\ (forall options,
         exists x,
           Jitter options state (Some next) rt w
           = (Normal x, {| draws := S (draws w1); factors := factors w1 |})
           /\ x == d * (1 + jitter_offset options ?? (1#4)
                        + (jitter_range options ?? (-(1#2)))
                          * Math_random rt (draws w1))).
Proof.
  intros Hdraws Hnext Hd.
  destruct (Hdraws (draws w1)) as (Hr0 & Hr1).
  assert (Hdr0 : 0 <= d * Math_random rt (draws w1))
    by (apply Qmult_le_0_compat; assumption).
  assert (Hdr1 : d * Math_random rt (draws w1) <= d) by nra.
  unfold FullJitter, EqualJitter, Jitter, bind, random, ret.
  cbn [absent call jitter_offset jitter_range nullish]. rewrite Hnext.
  split; [|split; [|split]].
  - do 2 eexists. split; [reflexivity|]. split; nra.
  - do 2 eexists. split; [reflexivity|]. split; nra.
  - do 2 eexists. split; [reflexivity|]. split; nra.
  - intro options. eexists. split; [reflexivity|]. ring.
Qed.

Lemma Fixture_unit_draws : unit_draws Fixture.rt.
Proof.
  intro n. unfold Fixture.rt. cbn [Math_random].
  destruct n as [|[|[|[|n]]]]; cbn [nth]; split;
    first [discriminate | reflexivity].
Qed.

Lemma Jitter_windows_witness :
  unit_draws Fixture.rt
  /\ as_next Fixture.linear Fixture.st Fixture.rt Fixture.pw
     = (Normal (1 * 1000), Fixture.pw)
  /\ 0 <= 1 * 1000
  /\ (exists x w', FullJitter Fixture.st (Some (as_next Fixture.linear))
                     Fixture.rt Fixture.pw = (Normal x, w')
                   /\ 0 <= x /\ x <= 1 * 1000)
  /\ (exists x w', EqualJitter Fixture.st (Some (as_next Fixture.linear))
                     Fixture.rt Fixture.pw = (Normal x, w')
                   /\ 1 * 1000 * (1#2) <= x /\ x <= 1 * 1000).
Proof.
  assert (Hd : 0 <= 1 * 1000) by discriminate.
  split; [exact Fixture_unit_draws|]. split; [reflexivity|].
  split; [exact Hd|].
  destruct (@Jitter_windows Fixture.rt Fixture.st (as_next Fixture.linear)
              Fixture.pw Fixture.pw (1 * 1000) Fixture_unit_draws eq_refl Hd)
    as (Hfull & Hequal & _).
  split; [exact Hfull | exact Hequal].
Defined.

(** A draw [r] of [[0, 1)] placed in the window from [initial] to
    [top]. *)
Lemma decorrelated_window (initial top r : Q) :
  0 <= r -> r < 1 -> initial <= top ->
  initial <= r * (top - initial) + initial
  /\ r * (top - initial) + initial <= top.
Proof. intros Hr0 Hr1 Htop. split; nra. Qed.

(** X13.  With draws in [[0, 1)], [0 <= initial <= max] and a previous
    delay of at least [initial / 3] (nothing is asked of it on the
    first attempt), [DecorrelatedJitter] returns a value between
    [initial] and [min(max, 3 * previous)], where the previous delay of
    a first attempt is [initial]. *)
Theorem DecorrelatedJitter_range (options : option DecorrelatedJitterOptions)
        (rt : Runtime) (state : RetryState) (w : PolicyWorld) :
  let initial := opt_field options decorrelated_initial ?? 150 in
  let max := opt_field options decorrelated_max ?? 30000 in
  let past := if (attempt state =? 1)%Z then initial else delay state in
  unit_draws rt -> 0 <= initial -> initial <= max -> initial <= past * 3 ->
  exists x,
    DecorrelatedJitter options state None rt w
    = (Normal x, {| draws := S (draws w); factors := factors w |})
    /\ initial <= x /\ x <= Qmin max (past * 3) /\ x <= max.
Proof.
  intros initial max past Hdraws Hi Him Hpast.
  destruct (Hdraws (draws w)) as (Hr0 & Hr1).
  unfold DecorrelatedJitter, void_call, bind, random, ret.
  fold initial max. fold past.
  assert (Htop : initial <= Qmin max (past * 3)) by now apply Q.min_glb.
  destruct (decorrelated_window Hr0 Hr1 Htop) as (Hlo & Hhi).
  eexists. split; [reflexivity|].
  split; [exact Hlo|]. split; [exact Hhi|].
  eapply Qle_trans; [exact Hhi | apply Q.le_min_l].
Qed.

Lemma DecorrelatedJitter_range_witness :
  unit_draws Fixture.rt /\ 0 <= 50 /\ 50 <= 1500 /\ 50 <= 50 * 3
  /\ exists x,
       DecorrelatedJitter
         (Some {| decorrelated_initial := Some 50;
                  decorrelated_max := Some 1500 |})
         Fixture.st None Fixture.rt Fixture.pw
       = (Normal x, {| draws := 1; factors := [] |})
       /\ 50 <= x /\ x <= Qmin 1500 (50 * 3) /\ x <= 1500.
Proof.
  assert (H0 : 0 <= 50) by discriminate.
  assert (H1 : 50 <= 1500) by discriminate.
  assert (H2 : 50 <= 50 * 3) by discriminate.
  split; [exact Fixture_unit_draws|].
  split; [exact H0|]. split; [exact H1|]. split; [exact H2|].
  exact (@DecorrelatedJitter_range
           (Some {| decorrelated_initial := Some 50;
                    decorrelated_max := Some 1500 |})
           Fixture.rt Fixture.st Fixture.pw Fixture_unit_draws H0 H1 H2).
Defined.



(** ** PollyJitter *)



(** ** Logger *)

(** A [Logger] whose logging functions do nothing observable. *)
Lemma Logger_silent (console : Console) (options : option LoggerOptions)
      (state : RetryState) (rt : Runtime) (w : PolicyWorld) :
  silent (opt_field options logger_warn ?? console_warn console) ->
  silent (opt_field options logger_error ?? console_error console) ->
  Logger console options state None rt w = (Thrown (error state), w)
  /\ forall next : Next,
       Logger console options state (Some next) rt w = next state rt w.
Proof.
  intros Hwarn Herror. unfold Logger, bind, try_catch. cbn [absent call].
  split.
  - rewrite Hwarn. unfold throw. now rewrite Herror.
  - intro next. rewrite Hwarn.
    destruct (next state rt w) as [[d|e] w1]; [reflexivity|].
    now rewrite Herror.
Qed.

(** X16.  [Logger] never changes the outcome of the chain when its two
    logging functions return without further effect: it is
    [next(state)], or [state.error] thrown when there is no [next].
    Whatever the logging functions do, a delay returned by [Logger] is
    a delay returned by [next], and without a [next] it always
    throws. *)
Theorem Logger_passes_outcome_on (console : Console)
        (options : option LoggerOptions) (state : RetryState) (rt : Runtime)
        (w : PolicyWorld) :
  (silent (opt_field options logger_warn ?? console_warn console) ->
   silent (opt_field options logger_error ?? console_error console) ->
   Logger console options state None rt w = (Thrown (error state), w)
   /\ forall next : Next,
        Logger console options state (Some next) rt w = next state rt w)
  /\ (forall next d w',
         Logger console options state (Some next) rt w = (Normal d, w') ->
         exists w1, next state rt w1 = (Normal d, w'))
  /\ (exists e w', Logger console options state None rt w = (Thrown e, w')).
Proof.
  split; [|split].
  - apply Logger_silent.
  - intros next d w'. apply Logger_returns_inv.
  - unfold Logger, bind, try_catch. cbn [absent].
    match goal with |- context [(?warn ?msg (error state)) rt w] =>
      destruct (warn msg (error state) rt w) as [[[]|e0] w1] end;
      [|do 2 eexists; reflexivity].
    unfold throw at 1.
    match goal with |- context [(?sink ?msg (error state)) rt w1] =>
      destruct (sink msg (error state) rt w1) as [[[]|e1] w2] end;
      do 2 eexists; reflexivity.
Qed.

Lemma noop_silent : silent noop.
Proof. intros msg v rt w. reflexivity. Qed.

Lemma Logger_passes_outcome_on_witness :
  silent (opt_field (@None LoggerOptions) logger_warn
          ?? console_warn Fixture.console)
  /\ silent (opt_field (@None LoggerOptions) logger_error
             ?? console_error Fixture.console)
  /\ Logger Fixture.console None Fixture.st None Fixture.rt Fixture.pw
     = (Thrown (error Fixture.st), Fixture.pw)
  /\ Logger Fixture.console None Fixture.st (Some (as_next Fixture.linear))
       Fixture.rt Fixture.pw
     = (Normal (1 * 1000), Fixture.pw).
Proof.
  split; [exact noop_silent|]. split; [exact noop_silent|].
  destruct (proj1 (Logger_passes_outcome_on Fixture.console None Fixture.st
                     Fixture.rt Fixture.pw) noop_silent noop_silent)
    as (Hnone & Hsome).
  split; [exact Hnone|]. exact (Hsome (as_next Fixture.linear)).
Defined.

(** ** No limit of its own *)

(** X17.  The engine has no limit of its own: while the operation keeps
    failing, the policy keeps returning delays and no cancellation
    occurs, a run never settles, however many turns it is given. *)
Theorem exec_retries_forever {Output : Type} (rt : Runtime)
        (fn : nat -> Completion Output) (policy : RetryPolicy)
        (signal : option AbortSignal) (w : World) (fuel : nat) :
  returns rt policy -> quiet signal ->
  (forall k, exists e, fn k = Thrown e) ->
  exec rt fn policy signal fuel w = None.
Proof.
  intros Hret Hquiet Hfail. unfold exec.
  destruct (@loop_retries Output rt fn policy signal fuel (boot rt w) 0 Hret)
    as (m & Hloop & _).
  - intros i _. apply Hfail.
  - intros ms i _. apply Hquiet.
  - rewrite Nat.add_0_r in Hloop. rewrite Hloop. reflexivity.
Qed.

Lemma exec_retries_forever_witness :
  returns Fixture.rt Fixture.linear /\ quiet None
  /\ (forall k, exists e, Fixture.fn k = Thrown e)
  /\ exec Fixture.rt Fixture.fn Fixture.linear None 50 Fixture.w = None.
Proof.
  assert (H : forall k, exists e, Fixture.fn k = Thrown e)
    by (intro k; exists (Fixture.failure k); reflexivity).
  split; [exact Fixture_linear_returns|]. split; [exact quiet_without_signal|].
  split; [exact H|].
  exact (@exec_retries_forever unit Fixture.rt Fixture.fn Fixture.linear None
           Fixture.w 50 Fixture_linear_returns quiet_without_signal H).
Defined.

(** ** Logging settings of the default composite *)

(** X18.  In [Default(options)], [logWarn: true] is the same as leaving
    [logWarn] out, and likewise for [logError]: the console of the host
    is used.  With both set to [false] the logger drops out: the
    policy is the chain Timeout, Breaker, FastTrack if enabled,
    PollyJitter. *)
Theorem Default_logging_settings (console : Console) (Math : MathLib)
        (factors : nat) (ft : option bool) (initialDelay : option Q)
        (maxAttempts maxDelay timeout : option Q)
        (next : option RetryPolicy) :
  let options := fun logError logWarn =>
    Some {| default_fastTrack := ft; default_initialDelay := initialDelay;
            default_logError := logError; default_logWarn := logWarn;
            default_maxAttempts := maxAttempts; default_maxDelay := maxDelay;
            default_timeout := timeout; default_next := next |} in
  (forall logError,
      Default console Math factors (options logError (Some (LogBoolean true)))
      = Default console Math factors (options logError None))
  /\ (forall logWarn,
         Default console Math factors (options (Some (LogBoolean true)) logWarn)
         = Default console Math factors (options None logWarn))
  /\ exists p,
       Default console Math factors
         (options (Some (LogBoolean false)) (Some (LogBoolean false)))
       = Normal p
       /\ forall state nx rt w,
            p state nx rt w
            = Timeout (Some {| timeout_after := timeout |}) state
                (Some (fun s =>
                   Breaker (Some {| breaker_max := maxAttempts |}) s
                     (Some
                        (if ft ?? false
                         then fun s' =>
                                FastTrack s'
                                  (Some (fun s'' =>
                                     PollyJitter Math factors
                                       (Some {| polly_initial := initialDelay;
                                                polly_max := maxDelay |})
                                       s'' (option_map as_next next)))
                         else fun s'' =>
                                PollyJitter Math factors
                                  (Some {| polly_initial := initialDelay;
                                           polly_max := maxDelay |})
                                  s'' (option_map as_next next)))))
                rt w.
Proof.
  intro options. split; [|split].
  - intro logError. reflexivity.
  - intro logWarn. reflexivity.
  - eexists. split; [apply Default_chain|].
    intros state nx rt w. cbn [options opt_field default_logWarn
      default_logError default_timeout default_maxAttempts default_fastTrack
      default_initialDelay default_maxDelay default_next loggerOrNoop].
    apply (proj2 (@Logger_silent console
                    (Some {| logger_warn := Some noop;
                             logger_error := Some noop |})
                    state rt w noop_silent noop_silent)).
Qed.
